(** * MRGCN: masked evaluation, dataset construction, model construction
      and the training loop

    A shallow embedding of [src/mrgcn.py] and
    [src/tasks/node_classification.py].

    Python exceptions are modelled by the [result] monad, dictionaries by
    [gmap], sets by [gset], NumPy arrays by lists of rows together with their
    column count, and the 64-bit floating point kernel (sum, division,
    logarithm, comparison) by the operations of the class [Float64], which the
    development never interprets: every statement holds for any
    implementation of these operations.

    Calls to [logging] are left out, and a printed line is recorded by the
    numbers it shows, before they are formatted. *)

From stdpp Require Import gmap strings list fin_maps.
From stdpp Require Import pretty.
From Stdlib Require Import ZArith QArith.
From Stdlib Require Import Lia.

Local Open Scope Z_scope.
Local Open Scope nat_scope.

(** ** Python exceptions *)

Inductive exn : Set :=
  | KeyError
  | IndexError
  | ValueError
  | TypeError
  | AssertionError.

Inductive result (A : Type) : Type :=
  | Ok (a : A)
  | Raise (e : exn).

Arguments Ok {A} a.
Arguments Raise {A} e.

#[global] Instance result_ret : MRet result := fun A a => Ok a.
#[global] Instance result_bind : MBind result := fun A B f m =>
  match m with
  | Ok a => f a
  | Raise e => Raise e
  end.
#[global] Instance result_fmap : FMap result := fun A B f m =>
  match m with
  | Ok a => Ok (f a)
  | Raise e => Raise e
  end.

(** [d[k]] on a dictionary and [l[i]] on a list. *)
Definition of_option {A} (o : option A) (e : exn) : result A :=
  match o with
  | Some a => Ok a
  | None => Raise e
  end.

(** A list comprehension whose body may raise: the first failure, from left
    to right, aborts the whole comprehension. *)
Fixpoint for_each {A B} (f : A → result B) (l : list A) : result (list B) :=
  match l with
  | [] => Ok []
  | x :: l' => y ← f x; ys ← for_each f l'; Ok (y :: ys)
  end.

(** ** The floating point kernel *)

Class Float64 (F : Type) := {
  of_nat : nat → F;          (* conversion of a count *)
  fdiv : F → F → F;          (* true division; x / 0 does not raise *)
  fsub : F → F → F;
  fneg : F → F;
  flog : F → F;              (* np.log *)
  fsum : list F → F;         (* np.add.reduce of a float vector *)
  fle : F → F → bool;        (* <= ; false as soon as one side is NaN *)
  fisnan : F → bool
}.

(** ** NumPy *)

Module np.

(** A two-dimensional array: its rows, and its number of columns (which a
    list of rows alone does not record when there is no row). *)
Record ndarray (A : Type) : Type := mk_ndarray {
  ncols : nat;
  rows : list (list A)
}.
Arguments mk_ndarray {A} ncols rows.
Arguments ncols {A} n.
Arguments rows {A} n.

Definition nrows {A} (m : ndarray A) : nat := length (rows m).

Definition wf {A} (m : ndarray A) : Prop :=
  Forall (λ r, length r = ncols m) (rows m).

Definition shape {A} (m : ndarray A) : nat * nat := (nrows m, ncols m).

(** [m[i, c]] for in-range [i] and [c]. *)
Definition entry {A} (m : ndarray A) (i c : nat) : option A :=
  r ← rows m !! i; r !! c.

(** One index of an integer index array: negative indices count from the
    end, anything outside [-n, n) raises. *)
Definition normalize_index (n : nat) (i : Z) : result nat :=
  if decide (0 ≤ i < Z.of_nat n)%Z then Ok (Z.to_nat i)
  else if decide (- Z.of_nat n ≤ i < 0)%Z then Ok (Z.to_nat (Z.of_nat n + i))
  else Raise IndexError.

(** [m[idx]] with [idx] an integer array: the rows named by [idx], in the
    order of [idx]. *)
Definition getitem {A} (m : ndarray A) (idx : list Z) : result (ndarray A) :=
  rs ← for_each (λ i, k ← normalize_index (nrows m) i;
                      of_option (rows m !! k) IndexError) idx;
  Ok (mk_ndarray (ncols m) rs).

Definition ravel {A} (m : ndarray A) : list A := concat (rows m).

(** Flat indices of the non-zero elements, counted from [k]. *)
Fixpoint nonzero_from (k : nat) (l : list Z) : list nat :=
  match l with
  | [] => []
  | x :: l' =>
      if decide (x = 0%Z) then nonzero_from (S k) l'
      else k :: nonzero_from (S k) l'
  end.

Definition nonzero (l : list Z) : list nat := nonzero_from 0 l.

Definition take {A} (a : list A) (indices : list nat) : result (list A) :=
  for_each (λ i, of_option (a !! i) IndexError) indices.

(** [np.extract(condition, arr)] is
    [np.take(ravel(arr), nonzero(ravel(condition))[0])]. *)
Definition extract {A} (condition : ndarray Z) (arr : ndarray A)
  : result (list A) :=
  take (ravel arr) (nonzero (ravel condition)).

(** [np.argmax] of one integer row: the first position of the maximum. *)
Fixpoint argmax_int_loop (mp : Z) (max_ind i : nat) (ip : list Z) : nat :=
  match ip with
  | [] => max_ind
  | x :: ip' =>
      if decide (x > mp)%Z then argmax_int_loop x i (S i) ip'
      else argmax_int_loop mp max_ind (S i) ip'
  end.

Definition argmax_int (row : list Z) : result nat :=
  match row with
  | [] => Raise ValueError
  | x :: ip => Ok (argmax_int_loop x 0 1 ip)
  end.

Section floats.
Context {F : Type} `{Float64 F}.

(** [np.argmax] of one float row: the first position of the maximum, a
    NaN counting as maximal. *)
Fixpoint argmax_float_loop (mp : F) (max_ind i : nat) (ip : list F) : nat :=
  match ip with
  | [] => max_ind
  | x :: ip' =>
      if negb (fle x mp) then
        if fisnan x then i else argmax_float_loop x i (S i) ip'
      else argmax_float_loop mp max_ind (S i) ip'
  end.

Definition argmax_float (row : list F) : result nat :=
  match row with
  | [] => Raise ValueError
  | x :: ip => Ok (if fisnan x then 0 else argmax_float_loop x 0 1 ip)
  end.

(** [np.mean] of a float vector: the sum divided by the number of
    elements, with no test on that number. *)
Definition mean (xs : list F) : F :=
  fdiv (fsum xs) (of_nat (length xs)).

(** [np.mean] of a boolean vector: the booleans are summed as floats,
    which is the exact count of [True]. *)
Definition mean_bool (bs : list bool) : F :=
  fdiv (of_nat (length (filter (λ b, b = true) bs))) (of_nat (length bs)).
End floats.

(** [np.argmax(m, 1)]: a zero-width axis raises even when there is no
    row. *)
Definition argmax_axis1 {A} (argmax_row : list A → result nat)
    (m : ndarray A) : result (list nat) :=
  if decide (ncols m = 0) then Raise ValueError
  else for_each argmax_row (rows m).

Definition equal (a b : list nat) : list bool :=
  zip_with Nat.eqb a b.

End np.

(** ** [mrgcn.py]: the masked evaluator *)

Section evaluator.
Context {F : Type} `{Float64 F}.

Definition categorical_crossentropy (preds : np.ndarray F)
    (labels : np.ndarray Z) : result F :=
  xs ← np.extract labels preds;
  Ok (np.mean ((λ x, fneg (flog x)) <$> xs)).

Definition accuracy (preds : np.ndarray F) (labels : np.ndarray Z)
  : result F :=
  a ← np.argmax_axis1 np.argmax_int labels;
  b ← np.argmax_axis1 np.argmax_float preds;
  Ok (np.mean_bool (np.equal a b)).

(** [preds[idx_split]] where [preds] may still be [None]. *)
Definition subscript {A} (preds : option (np.ndarray A)) (idx : list Z)
  : result (np.ndarray A) :=
  match preds with
  | None => Raise TypeError
  | Some m => np.getitem m idx
  end.

Fixpoint evaluate_loop (preds : option (np.ndarray F))
    (pairs : list (np.ndarray Z * list Z))
    (split_loss split_acc : list F) : result (list F * list F) :=
  match pairs with
  | [] => Ok (split_loss, split_acc)
  | (y_split, idx_split) :: pairs' =>
      p ← subscript preds idx_split;
      y ← np.getitem y_split idx_split;
      loss ← categorical_crossentropy p y;
      p' ← subscript preds idx_split;
      y' ← np.getitem y_split idx_split;
      acc ← accuracy p' y';
      evaluate_loop preds pairs' (split_loss ++ [loss]) (split_acc ++ [acc])
  end.

Definition evaluate_preds (preds : option (np.ndarray F))
    (labels : list (np.ndarray Z)) (indices : list (list Z))
  : result (list F * list F) :=
  evaluate_loop preds (zip labels indices) [] [].

End evaluator.

(** ** SciPy sparse matrices *)

Module sp.

Inductive dtype : Set := int32 | float64.

(** A sparse matrix: its element type, its shape and its stored entries.
    The only matrices with stored entries built here are [int32] ones. *)
Record csr_matrix : Type := mk_csr {
  dt : dtype;
  shape : nat * nat;
  data : gmap (nat * nat) Z
}.

(** [m[i, j]]: positions that are not stored read as zero. *)
Definition get (m : csr_matrix) (i j : nat) : Z :=
  default 0%Z (data m !! (i, j)).

(** Addition of 32-bit signed integers. *)
Definition wrap32 (z : Z) : Z :=
  ((z + 2 ^ 31) mod 2 ^ 32 - 2 ^ 31)%Z.

Definition add_entry (d : gmap (nat * nat) Z) (e : nat * nat * Z)
  : gmap (nat * nat) Z :=
  let '(i, j, v) := e in
  <[(i, j) := wrap32 (default 0%Z (d !! (i, j)) + v)]> d.

(** [sp.csr_matrix((M, N))]: the empty matrix of that shape. *)
Definition empty (shape : nat * nat) : csr_matrix :=
  mk_csr float64 shape ∅.

(** [sp.csr_matrix((values, (row, col)), shape=shape, dtype=np.int32)]:
    the three arrays must have one length, every index must lie inside the
    shape, and the values of entries given more than once are added up. *)
Definition from_coo (values : list Z) (row col : list nat)
    (shape : nat * nat) : result csr_matrix :=
  if negb (bool_decide (length row = length values
                        ∧ length col = length values)) then Raise ValueError
  else if bool_decide (Exists (λ i, shape.1 ≤ i) row) then Raise ValueError
  else if bool_decide (Exists (λ j, shape.2 ≤ j) col) then Raise ValueError
  else Ok (mk_csr int32 shape
             (foldl add_entry ∅ (zip (zip row col) values))).

End sp.

(** ** Python built-ins *)

Definition enumerate {A} (start : nat) (l : list A) : list (nat * A) :=
  zip (seq start (length l)) l.

(** [{label: i for i, label in pairs}]: a later pair with the same label
    replaces an earlier one. *)
Definition dict_of `{Countable K} (pairs : list (nat * K)) : gmap K nat :=
  foldl (λ d p, <[p.2 := p.1]> d) ∅ pairs.

(** ** [tasks/node_classification.py]: the dataset builder *)

Section dataset.
Context {node rel cls : Type} `{Countable node} `{Countable cls}.

(** Of the knowledge graph, the builder reads only the enumeration of its
    atoms. *)
Record KnowledgeGraph : Type := mk_graph {
  atoms : list node
}.

(** A target statement: a node, a relation and a class. *)
Local Abbreviation triple := (node * rel * cls)%type.

Definition class_set (target_triples : list triple) : gset cls :=
  list_to_set ((λ t, t.2) <$> target_triples).

Definition make_nodes_map (knowledge_graph : KnowledgeGraph)
  : gmap node nat :=
  dict_of (enumerate 0 (atoms knowledge_graph)).

Definition make_classes_map (target_triples : list triple) : gmap cls nat :=
  dict_of (enumerate 0 (elements (class_set target_triples))).

(** The row and the column of a target statement in [Y], for a statement
    whose node and class are keys of the two dictionaries. *)
Definition coordinates (knowledge_graph : KnowledgeGraph)
    (target_triples : list triple) (t : triple) : nat * nat :=
  (default 0 (make_nodes_map knowledge_graph !! t.1.1),
   default 0 (make_classes_map target_triples !! t.2)).

(** [X_node_idx, Y_class_idx = map(np.array, zip( *target_labels))]: with
    no label at all, [zip] yields nothing and the unpacking fails. *)
Definition unzip_labels (target_labels : list (nat * nat))
  : result (list nat * list nat) :=
  match target_labels with
  | [] => Raise ValueError
  | _ => Ok (fst <$> target_labels, snd <$> target_labels)
  end.

Definition build_dataset (knowledge_graph : KnowledgeGraph)
    (target_triples : list triple)
  : result (sp.csr_matrix * sp.csr_matrix * list nat) :=
  let nodes_map := make_nodes_map knowledge_graph in
  let classes_map := make_classes_map target_triples in
  target_labels ← for_each (λ t : triple,
      let '(x, _, y) := t in
      r ← of_option (nodes_map !! x) KeyError;
      c ← of_option (classes_map !! y) KeyError;
      Ok (r, c)) target_triples;
  '(X_node_idx, Y_class_idx) ← unzip_labels target_labels;
  Y ← sp.from_coo (replicate (length target_labels) 1%Z)
         X_node_idx Y_class_idx (size nodes_map, size classes_map);
  let X := sp.empty (size nodes_map, size nodes_map) in
  Ok (X, Y, X_node_idx).

End dataset.

Arguments KnowledgeGraph node : clear implicits.
Abbreviation triple node rel cls := (node * rel * cls)%type (only parsing).

(** ** [tasks/node_classification.py]: the model builder *)

(** One table of [config['model']['layers']]. *)
Record layer_config : Type := mk_layer {
  hidden_nodes : nat;
  num_bases : Z;
  featureless : bool;
  activation : string;
  dropout : Q;
  l2norm : Q
}.

(** [config['model']] *)
Record model_config : Type := mk_model_config {
  layers : list layer_config;
  loss : string;
  learning_rate : Q;
  epoch : Z
}.

(** The configuration document: [config['graph']['file']],
    [config['task']['dataset_ratio']], [config['task']['seed']] and
    [config['model']]. *)
Record config : Type := mk_config {
  graph_file : string;
  dataset_ratio : list Q;
  seed : Z;
  config_model : model_config
}.

Module keras.

Inductive regularizer : Type := l2 (l : Q).

(** The keyword arguments a [GraphConvolution] call may pass; [None] is an
    argument the call leaves out. *)
Record gc_kwargs : Type := mk_kwargs {
  kw_num_bases : option Z;
  kw_featureless : option bool;
  kw_activation : option string;
  kw_W_regularizer : option regularizer
}.

(** The symbolic tensors of the computation graph. *)
#[warnings="-register-all"]
Inductive tensor : Type :=
  | Input (width : nat) (sparse : bool)
  | InputAdj (k : nat) (sparse : bool)
  | GraphConvolution (output_dim support : nat) (kw : gc_kwargs)
      (inputs : list tensor)
  | Dropout (rate : Q) (input : tensor).

Inductive optimizer : Type := Adam (lr : Q).
Inductive metric : Type := categorical_accuracy.

Record Model : Type := mk_Model {
  input : list tensor;
  output : tensor;
  compiled_loss : string;
  compiled_optimizer : optimizer;
  metrics : list metric
}.

(** The graph-convolution layers on the path from the features to a
    tensor, first layer first: each with its output width and keyword
    arguments. *)
Fixpoint graph_convolutions (t : tensor) : list (nat * gc_kwargs) :=
  match t with
  | GraphConvolution d _ kw inputs =>
      match inputs with
      | h :: _ => graph_convolutions h
      | [] => []
      end ++ [(d, kw)]
  | Dropout _ h => graph_convolutions h
  | _ => []
  end.

End keras.

Section model.
Import keras.

(** The body of [for i, layer in enumerate(layers[1:-1], 1)], which reads
    the layer's table as [layers[i]]. *)
Fixpoint intermediate_layers (layers : list layer_config) (support : nat)
    (A_in : list tensor) (steps : list (nat * layer_config)) (H : tensor)
  : result tensor :=
  match steps with
  | [] => Ok H
  | (i, _) :: steps' =>
      layer_i ← of_option (layers !! i) IndexError;
      let H1 := GraphConvolution (hidden_nodes layer_i) support
                  (mk_kwargs (Some (num_bases layer_i))
                             (Some (featureless layer_i))
                             (Some (activation layer_i))
                             (Some (l2 (l2norm layer_i))))
                  ([H] ++ A_in) in
      intermediate_layers layers support A_in steps'
        (Dropout (dropout layer_i) H1)
  end.

(** [layers[1:-1]] *)
Definition slice_1_m1 {A} (l : list A) : list A :=
  drop 1 (take (length l - 1) l).

Definition build_model (X Y : sp.csr_matrix) (A : list sp.csr_matrix)
    (config : config) : result Model :=
  let layers := layers (config_model config) in
  if negb (bool_decide (2 ≤ length layers)) then Raise AssertionError else
  let support := length A in
  let A_in := (λ k, InputAdj k true) <$> seq 0 support in
  let X_in := Input (sp.shape X).2 true in
  layer_0 ← of_option (layers !! 0) IndexError;
  let H := GraphConvolution (hidden_nodes layer_0) support
             (mk_kwargs (Some (num_bases layer_0))
                        (Some (featureless layer_0))
                        (Some (activation layer_0))
                        (Some (l2 (l2norm layer_0))))
             ([X_in] ++ A_in) in
  let H := Dropout (dropout layer_0) H in
  H ← intermediate_layers layers support A_in
         (enumerate 1 (slice_1_m1 layers)) H;
  layer_last ← of_option (last layers) IndexError;
  let Y_out := GraphConvolution (sp.shape Y).2 support
                 (mk_kwargs (Some (num_bases layer_last)) None
                            (Some (activation layer_last)) None)
                 ([H] ++ A_in) in
  Ok (mk_Model ([X_in] ++ A_in) Y_out (loss (config_model config))
        (Adam (learning_rate (config_model config))) [categorical_accuracy]).

(** The keyword arguments of a layer that is given all the entries of its
    table, and those of a layer that is given its number of bases and its
    activation only. *)
Definition regularized_kwargs (layer : layer_config) : gc_kwargs :=
  mk_kwargs (Some (num_bases layer)) (Some (featureless layer))
            (Some (activation layer)) (Some (l2 (l2norm layer))).

Definition plain_kwargs (layer : layer_config) : gc_kwargs :=
  mk_kwargs (Some (num_bases layer)) None (Some (activation layer)) None.

End model.

(** ** [mrgcn.py]: the training loop *)

(** [range(a, b)] *)
Definition range (a b : Z) : list Z :=
  (λ k, (a + Z.of_nat k)%Z) <$> seq 0 (Z.to_nat (b - a)).

(** One entry of the dictionary returned by [create_splits]:
    [dataset[s]['Y']] and [dataset[s]['X_idx']]. *)
Record split : Type := mk_split {
  split_Y : np.ndarray Z;
  X_idx : list Z
}.

Record dataset : Type := mk_dataset {
  train : split;
  val : split;
  test : split
}.

Record Args : Type := mk_Args {
  args_input : option string
}.

(** What [run] calls and this repository's two files do not define: the
    graph reader, the structure generator, the tarball reader, the split
    utilities, the compiled Keras model (its trainable parameters, one
    training step, one forward pass) and the wall clock. *)
Class Collaborators (F node rel cls : Type) : Type := {
  weights : Type;
  open_graph : string → KnowledgeGraph node;
  strip_graph : KnowledgeGraph node → config →
                list (triple node rel cls) * KnowledgeGraph node;
  generate : KnowledgeGraph node → config → list sp.csr_matrix;
  is_readable : string → bool;
  tar_read : string →
             list sp.csr_matrix * sp.csr_matrix * sp.csr_matrix * list nat;
  create_splits : sp.csr_matrix → sp.csr_matrix → list nat → list Q → Z →
                  dataset;
  sample_mask : list Z → nat → list bool;
  initial_weights : keras.Model → weights;
  fit : keras.Model → list sp.csr_matrix → np.ndarray Z → list bool → nat →
        weights → weights;
  predict : keras.Model → list sp.csr_matrix → nat → weights → np.ndarray F;
  clock : nat → F
}.

(** What a run does to the outside: calls into the compiled model and lines
    printed on the console (the numbers of a line, before formatting). *)
Inductive event (F : Type) : Type :=
  | Fit
  | Predict
  | PrintEpoch (epoch : Z) (train_loss train_acc val_loss val_acc time : F)
  | PrintTime (epoch : Z) (time : F)
  | PrintTest (loss acc : F).

Arguments Fit {F}.
Arguments Predict {F}.
Arguments PrintEpoch {F} epoch train_loss train_acc val_loss val_acc time.
Arguments PrintTime {F} epoch time.
Arguments PrintTest {F} loss acc.

(** The state a run threads: how often the clock was read, and the events
    so far (oldest first). *)
Record world (F : Type) : Type := mk_world {
  ticks : nat;
  out : list (event F)
}.
Arguments mk_world {F} ticks out.
Arguments ticks {F} w.
Arguments out {F} w.

(** A computation that may raise and that keeps the state reached when it
    does. *)
Definition io (F A : Type) : Type := world F → result A * world F.

#[global] Instance io_ret {F} : MRet (io F) := λ A a w, (Ok a, w).
#[global] Instance io_bind {F} : MBind (io F) := λ A B f m w,
  match m w with
  | (Ok a, w') => f a w'
  | (Raise e, w') => (Raise e, w')
  end.

Definition lift {F A} (r : result A) : io F A := λ w, (r, w).

Definition emit {F} (e : event F) : io F unit :=
  λ w, (Ok (), mk_world (ticks w) (out w ++ [e])).

Section run.
Context {F node rel cls : Type} `{Float64 F}
        `{Countable node} `{Countable cls}
        `{!Collaborators F node rel cls}.

Definition time : io F F :=
  λ w, (Ok (clock (ticks w)), mk_world (S (ticks w)) (out w)).

(** Lines 19-28: the task prerequisites, built or imported. *)
Definition prerequisites (args : Args) (config : config)
  : result (list sp.csr_matrix * sp.csr_matrix * sp.csr_matrix * list nat) :=
  match args_input args with
  | None =>
      let kg := open_graph (graph_file config) in
      let '(targets, kg) := strip_graph kg config in
      let A := generate kg config in
      '(X, Y, X_node_map) ← build_dataset kg targets;
      Ok (A, X, Y, X_node_map)
  | Some path =>
      if is_readable path then Ok (tar_read path)
      else Raise AssertionError
  end.

(** The body of [for epoch in range(1, nepoch+1)], over the epochs still to
    run; it carries the model's parameters and [Y_hat]. *)
Fixpoint epochs (model : keras.Model) (X : sp.csr_matrix)
    (A : list sp.csr_matrix) (dataset : dataset) (train_mask : list bool)
    (batch_size : nat) (todo : list Z)
    (w : weights) (Y_hat : option (np.ndarray F))
  : io F (weights * option (np.ndarray F)) :=
  match todo with
  | [] => mret (w, Y_hat)
  | epoch :: todo' =>
      t ← time;
      _ ← emit Fit;
      let w := fit model ([X] ++ A) (split_Y (train dataset)) train_mask
                 batch_size w in
      if bool_decide ((epoch `mod` 1)%Z = 0%Z) then
        _ ← emit Predict;
        let Y_hat := predict model ([X] ++ A) batch_size w in
        '(train_val_loss, train_val_acc) ← lift (evaluate_preds (Some Y_hat)
            [split_Y (train dataset); split_Y (val dataset)]
            [X_idx (train dataset); X_idx (val dataset)]);
        train_loss ← lift (of_option (train_val_loss !! 0) IndexError);
        train_acc ← lift (of_option (train_val_acc !! 0) IndexError);
        val_loss ← lift (of_option (train_val_loss !! 1) IndexError);
        val_acc ← lift (of_option (train_val_acc !! 1) IndexError);
        t' ← time;
        _ ← emit (PrintEpoch epoch train_loss train_acc val_loss val_acc
                    (fsub t' t));
        epochs model X A dataset train_mask batch_size todo' w (Some Y_hat)
      else
        t' ← time;
        _ ← emit (PrintTime epoch (fsub t' t));
        epochs model X A dataset train_mask batch_size todo' w Y_hat
  end.

Definition run (args : Args) (config : config) : io F unit :=
  '(A, X, Y, X_node_map) ← lift (prerequisites args config);
  model ← lift (build_model X Y A config);
  let dataset := create_splits X Y X_node_map (dataset_ratio config)
                   (seed config) in
  let train_mask := sample_mask (X_idx (train dataset)) (sp.shape Y).1 in
  let Y_hat := None in
  let nepoch := epoch (config_model config) in
  let batch_size := (sp.shape X).1 in
  '(_, Y_hat) ← epochs model X A dataset train_mask batch_size
                  (range 1 (nepoch + 1)) (initial_weights model) Y_hat;
  '(test_loss, test_acc) ← lift (evaluate_preds Y_hat
      [split_Y (test dataset)] [X_idx (test dataset)]);
  loss ← lift (of_option (test_loss !! 0) IndexError);
  acc ← lift (of_option (test_acc !! 0) IndexError);
  emit (PrintTest loss acc).

End run.

(** ** Reference definitions: masked loss and accuracy *)

Section masked.
Context {F : Type} `{Float64 F}.

(** The entries [P[i, c]] at the positions [(i, c)] with [i] in the subset
    and [L[i, c] = 1], subset order first, column order second. *)
Definition masked_entries (P : np.ndarray F) (L : np.ndarray Z)
    (subset : list nat) : list F :=
  i ← subset;
  c ← seq 0 (np.ncols P);
  if decide (np.entry L i c = Some 1%Z) then option_list (np.entry P i c)
  else [].

(** A matrix cut down by hand to the rows of a subset. *)
Definition slice {A} (m : np.ndarray A) (subset : list nat) : np.ndarray A :=
  np.mk_ndarray (np.ncols m) ((λ i, default [] (np.rows m !! i)) <$> subset).

(** The elements of [p] where [l] is not zero: what [np.extract] keeps of
    one row. *)
Fixpoint select {A} (l : list Z) (p : list A) : list A :=
  match l, p with
  | x :: l', y :: p' =>
      if decide (x = 0%Z) then select l' p' else y :: select l' p'
  | _, _ => []
  end.

(** The mean of [-log] over what [np.extract] keeps of the rows of a
    subset. *)
Definition extracted_loss (P : np.ndarray F) (L : np.ndarray Z)
    (subset : list nat) : F :=
  np.mean ((λ x, fneg (flog x)) <$>
           concat (zip_with select (np.rows (slice L subset))
                                   (np.rows (slice P subset)))).

(** The mean of [-log(P[i, c])] over these positions. *)
Definition masked_loss (P : np.ndarray F) (L : np.ndarray Z)
    (subset : list nat) : F :=
  np.mean ((λ x, fneg (flog x)) <$> masked_entries P L subset).

(** Row [i] is classified correctly: the argmax of the prediction row is
    the argmax of the label row. *)
Definition hit (P : np.ndarray F) (L : np.ndarray Z) (i : nat) : bool :=
  match np.rows P !! i, np.rows L !! i with
  | Some p, Some l =>
      match np.argmax_float p, np.argmax_int l with
      | Ok a, Ok b => Nat.eqb b a
      | _, _ => false
      end
  | _, _ => false
  end.

(** The fraction of the rows of the subset that are classified
    correctly. *)
Definition masked_accuracy (P : np.ndarray F) (L : np.ndarray Z)
    (subset : list nat) : F :=
  fdiv (of_nat (length (filter (λ i, hit P L i = true) subset)))
       (of_nat (length subset)).

(** A label matrix holds zeros and ones only. *)
Definition zero_one (L : np.ndarray Z) : Prop :=
  Forall (Forall (λ y, y = 0%Z ∨ y = 1%Z)) (np.rows L).

(** A valid index subset of an [N]-row matrix. *)
Definition in_range (N : nat) (idx : list Z) : Prop :=
  Forall (λ i, (0 ≤ i < Z.of_nat N)%Z) idx.

(** A label matrix and an index subset that fit a prediction matrix. *)
Definition fits (P : np.ndarray F) (pair : np.ndarray Z * list Z) : Prop :=
  np.wf pair.1 ∧ np.shape pair.1 = np.shape P ∧ in_range (np.nrows P) pair.2.

End masked.

(** ** A free implementation of the floating point kernel

    Floats as the terms that denote them: an operation builds a term and
    evaluates nothing, comparisons are decided between literals only. It
    serves to run the definitions above on concrete inputs. *)

Module sym.

#[warnings="-register-all"]
Inductive t : Type :=
  | Lit (q : Q)
  | OfNat (n : nat)
  | Div (a b : t)
  | Sub (a b : t)
  | Neg (a : t)
  | Log (a : t)
  | Sum (l : list t).

Definition le (a b : t) : bool :=
  match a, b with
  | Lit x, Lit y => Qle_bool x y
  | _, _ => false
  end.

#[global] Instance float64 : Float64 t := {|
  of_nat := OfNat;
  fdiv := Div;
  fsub := Sub;
  fneg := Neg;
  flog := Log;
  fsum := Sum;
  fle := le;
  fisnan := λ _, false
|}.

End sym.

(** ** The training loop in closed form *)

Section run_spec.
Context {F node rel cls : Type} `{Float64 F}
        `{!Collaborators F node rel cls}.

(** The parameters after [n] training steps. *)
Fixpoint trained (model : keras.Model) (X : sp.csr_matrix)
    (A : list sp.csr_matrix) (dataset : dataset) (train_mask : list bool)
    (batch_size : nat) (n : nat) (w : weights) : weights :=
  match n with
  | 0 => w
  | S n' =>
      trained model X A dataset train_mask batch_size n'
        (fit model ([X] ++ A) (split_Y (train dataset)) train_mask
           batch_size w)
  end.

Definition split_loss_of (P : np.ndarray F) (s : split) : F :=
  extracted_loss P (split_Y s) (Z.to_nat <$> X_idx s).

Definition split_accuracy_of (P : np.ndarray F) (s : split) : F :=
  masked_accuracy P (split_Y s) (Z.to_nat <$> X_idx s).

(** The events of the epochs [todo], started with parameters [w] when the
    clock has been read [k] times: per epoch one training step, one forward
    pass and one full progress line. *)
Fixpoint loop_events (model : keras.Model) (X : sp.csr_matrix)
    (A : list sp.csr_matrix) (dataset : dataset) (train_mask : list bool)
    (batch_size : nat) (todo : list Z) (w : weights) (k : nat)
  : list (event F) :=
  match todo with
  | [] => []
  | epoch :: todo' =>
      let w' := fit model ([X] ++ A) (split_Y (train dataset)) train_mask
                  batch_size w in
      let P := predict model ([X] ++ A) batch_size w' in
      [Fit; Predict;
       PrintEpoch epoch
         (split_loss_of P (train dataset)) (split_accuracy_of P (train dataset))
         (split_loss_of P (val dataset)) (split_accuracy_of P (val dataset))
         (fsub (clock (S k)) (clock k))]
      ++ loop_events model X A dataset train_mask batch_size todo' w'
           (S (S k))
  end.

(** Every forward pass of the model gives a prediction matrix that the
    three splits fit. *)
Definition evaluable (model : keras.Model) (X : sp.csr_matrix)
    (A : list sp.csr_matrix) (dataset : dataset) (batch_size : nat) : Prop :=
  ∀ w, let P := predict model ([X] ++ A) batch_size w in
       np.wf P ∧ 0 < np.ncols P ∧
       fits P (split_Y (train dataset), X_idx (train dataset)) ∧
       fits P (split_Y (val dataset), X_idx (val dataset)) ∧
       fits P (split_Y (test dataset), X_idx (test dataset)).

End run_spec.

Definition is_PrintTime {F} (e : event F) : bool :=
  match e with
  | PrintTime _ _ => true
  | _ => false
  end.

Definition is_Predict {F} (e : event F) : bool :=
  match e with
  | Predict => true
  | _ => false
  end.

(** The epoch numbers of the full progress lines of a trace, in order. *)
Definition progress_epochs {F} (trace : list (event F)) : list Z :=
  omap (λ e, match e with
             | PrintEpoch epoch _ _ _ _ _ => Some epoch
             | _ => None
             end) trace.

(** ** Sample inputs *)

Module sample.
Import sym.

(** Predictions for three nodes and two classes. *)
Definition P : np.ndarray sym.t :=
  np.mk_ndarray 2 [[Lit (7 # 10); Lit (3 # 10)];
                   [Lit (2 # 10); Lit (8 # 10)];
                   [Lit (1 # 2); Lit (1 # 2)]].

(** Nodes 0 and 1 are labelled with class 0, node 2 is not labelled. *)
Definition L : np.ndarray Z :=
  np.mk_ndarray 2 [[1; 0]; [1; 0]; [0; 0]]%Z.

(** A graph of three atoms, two of them labelled. *)
Definition graph : KnowledgeGraph string := mk_graph ["a"; "b"; "c"]%string.

Definition targets : list (triple string string string) :=
  [("a", "type", "x"); ("c", "type", "y")]%string.

(** The same statement given twice. *)
Definition repeated : list (triple string string string) :=
  [("a", "type", "x"); ("a", "type", "x")]%string.

(** One node with two classes. *)
Definition two_classes : list (triple string string string) :=
  [("a", "type", "x"); ("a", "type", "y")]%string.

(** A statement about a node that the graph does not have. *)
Definition dangling : list (triple string string string) :=
  [("a", "type", "x"); ("d", "type", "y")]%string.

(** Two layers, both with an [l2norm] entry in their table. *)
Definition two_layers : config :=
  mk_config "graph.nt" [(8 # 10); (1 # 10); (1 # 10)]%Q 1%Z
    (mk_model_config
       [mk_layer 16 0%Z true "relu" (0 # 1)%Q (5 # 10000)%Q;
        mk_layer 2 0%Z false "softmax" (0 # 1)%Q (5 # 10000)%Q]
       "categorical_crossentropy" (1 # 100)%Q 1%Z).

Definition X : sp.csr_matrix := sp.empty (3, 3).
Definition Y : sp.csr_matrix :=
  sp.mk_csr sp.int32 (3, 2) {[ (0, 0) := 1%Z; (1, 0) := 1%Z ]}.
Definition A : list sp.csr_matrix := [sp.empty (3, 3)].

Definition train_Y : np.ndarray Z :=
  np.mk_ndarray 2 [[1; 0]; [0; 0]; [0; 0]]%Z.
Definition val_Y : np.ndarray Z :=
  np.mk_ndarray 2 [[0; 0]; [1; 0]; [0; 0]]%Z.
Definition test_Y : np.ndarray Z :=
  np.mk_ndarray 2 [[0; 0]; [0; 0]; [0; 1]]%Z.

Definition splits : dataset :=
  mk_dataset (mk_split train_Y [0%Z]) (mk_split val_Y [1%Z])
             (mk_split test_Y [2%Z]).

(** Collaborators that read the sample graph, count the training steps
    and always predict [P]; the clock shows how often it was read. *)
#[global] Instance collaborators
  : Collaborators sym.t string string string := {|
  weights := nat;
  open_graph := λ _, graph;
  strip_graph := λ kg _, (targets, kg);
  generate := λ _ _, A;
  is_readable := λ _, true;
  tar_read := λ _, (A, X, Y, [0; 1]);
  create_splits := λ _ _ _ _ _, splits;
  sample_mask := λ _ _, [true; false; false];
  initial_weights := λ _, 0;
  fit := λ _ _ _ _ _ w, S w;
  predict := λ _ _ _ _, P;
  clock := λ n, sym.Lit (Z.of_nat n # 1)
|}.

(** The model built for [two_layers]. *)
Definition model : keras.Model :=
  Eval vm_compute in
    match build_model X Y A two_layers with
    | Ok m => m
    | Raise _ => keras.mk_Model [] (keras.Input 0 false) "" (keras.Adam 0) []
    end.

(** The same configuration with no epoch at all. *)
Definition no_epoch : config :=
  mk_config "graph.nt" [(8 # 10); (1 # 10); (1 # 10)]%Q 1%Z
    (mk_model_config (layers (config_model two_layers))
       "categorical_crossentropy" (1 # 100)%Q 0%Z).

End sample.

(** ** [tasks/node_classification.py]: the task generator *)

Section task.
Context {node rel cls : Type} `{Countable node} `{Countable cls}.

Definition generate_task (knowledge_graph : KnowledgeGraph node)
    (A : list sp.csr_matrix) (targets : list (triple node rel cls))
    (config : config)
  : result (sp.csr_matrix * sp.csr_matrix * list nat * keras.Model) :=
  '(X, Y, X_node_idx) ← build_dataset knowledge_graph targets;
  model ← build_model X Y A config;
  Ok (X, Y, X_node_idx, model).

End task.

(** ** [mrgcn.py]: the logging set-up *)

(** [s.endswith(suffix)] *)
Fixpoint endswith (s suffix : string) : bool :=
  if String.eqb s suffix then true
  else match s with
       | EmptyString => false
       | String _ s' => endswith s' suffix
       end.

(** The arguments of [logging.basicConfig] (the level is always [INFO]),
    and whether a stream handler is added. *)
Record logging_config : Type := mk_logging_config {
  log_filename : string;
  log_format : string;
  stream_handler : bool
}.

(** [set_logging(args, timestamp)], of [args] its [log_directory] and
    [verbose]; [None] when it returns without configuring anything. *)
Definition set_logging (is_writable : string → bool) (log_directory : string)
    (verbose : bool) (timestamp : Z) : option logging_config :=
  let log_path := log_directory in
  if negb (is_writable log_path) then None else
  let filename :=
    if endswith log_path "/"
    then log_path +:+ pretty timestamp +:+ ".log"
    else log_path +:+ "/" +:+ pretty timestamp +:+ ".log" in
  Some (mk_logging_config filename
          "%(asctime)s %(levelname)s: %(message)s" verbose).

(** ** Walks through a computation graph *)

(** The rates of the dropout layers on the path from the features to a
    tensor, first layer first. *)
Fixpoint dropouts (t : keras.tensor) : list Q :=
  match t with
  | keras.Dropout rate h => dropouts h ++ [rate]
  | keras.GraphConvolution _ _ _ inputs =>
      match inputs with
      | h :: _ => dropouts h
      | [] => []
      end
  | _ => []
  end.

(** For each graph convolution on that path: its support count and the
    inputs it is given after its first one. *)
Fixpoint wiring (t : keras.tensor) : list (nat * list keras.tensor) :=
  match t with
  | keras.GraphConvolution _ support _ inputs =>
      match inputs with
      | h :: adjacency => wiring h ++ [(support, adjacency)]
      | [] => [(support, [])]
      end
  | keras.Dropout _ h => wiring h
  | _ => []
  end.

(** The tensor at which that path starts. *)
Fixpoint features (t : keras.tensor) : keras.tensor :=
  match t with
  | keras.GraphConvolution _ _ _ inputs =>
      match inputs with
      | h :: _ => features h
      | [] => t
      end
  | keras.Dropout _ h => features h
  | _ => t
  end.

(** The hidden layers of [build_model] stacked on a tensor: for each table a
    graph convolution given all the entries of the table, followed by a
    dropout layer. *)
Fixpoint stack (support : nat) (A_in : list keras.tensor)
    (tables : list layer_config) (H : keras.tensor) : keras.tensor :=
  match tables with
  | [] => H
  | layer :: tables' =>
      stack support A_in tables'
        (keras.Dropout (dropout layer)
           (keras.GraphConvolution (hidden_nodes layer) support
              (regularized_kwargs layer) ([H] ++ A_in)))
  end.

(** One layer on that path: a graph convolution with its output width, or
    a dropout layer with its rate. *)
Inductive layer_step : Type :=
  | Convolution (width : nat)
  | DropoutOf (rate : Q).

(** The layers on the path from the features to a tensor, in the order in
    which the data flows through them. *)
Fixpoint layer_path (t : keras.tensor) : list layer_step :=
  match t with
  | keras.GraphConvolution d _ _ inputs =>
      match inputs with
      | h :: _ => layer_path h
      | [] => []
      end ++ [Convolution d]
  | keras.Dropout rate h => layer_path h ++ [DropoutOf rate]
  | _ => []
  end.

Definition is_Fit {F} (e : event F) : bool :=
  match e with
  | Fit => true
  | _ => false
  end.

(** ** More sample inputs *)

Module sample2.

(** Labels of the shape of [sample.L] with other non-zero values. *)
Definition L2 : np.ndarray Z :=
  np.mk_ndarray 2 [[2; 0]; [-1; 0]; [0; 0]]%Z.

(** Three layers. *)
Definition three_layers : config :=
  mk_config "graph.nt" [(8 # 10); (1 # 10); (1 # 10)]%Q 1%Z
    (mk_model_config
       [mk_layer 16 0%Z true "relu" (1 # 2)%Q (5 # 10000)%Q;
        mk_layer 8 0%Z false "relu" (1 # 4)%Q (5 # 10000)%Q;
        mk_layer 2 0%Z false "softmax" (0 # 1)%Q (5 # 10000)%Q]
       "categorical_crossentropy" (1 # 100)%Q 2%Z).

(** One layer only. *)
Definition one_layer : config :=
  mk_config "graph.nt" [(8 # 10); (1 # 10); (1 # 10)]%Q 1%Z
    (mk_model_config
       [mk_layer 16 0%Z true "relu" (1 # 2)%Q (5 # 10000)%Q]
       "categorical_crossentropy" (1 # 100)%Q 2%Z).

(** What [build_dataset] returns on the sample graph and targets. *)
Definition built : sp.csr_matrix * sp.csr_matrix * list nat :=
  Eval vm_compute in
    match build_dataset sample.graph sample.targets with
    | Ok r => r
    | Raise _ => (sample.X, sample.Y, [])
    end.

(** A split whose validation subset names a row that does not exist. *)
Definition bad_splits : dataset :=
  mk_dataset (mk_split sample.train_Y [0%Z]) (mk_split sample.val_Y [7%Z])
             (mk_split sample.test_Y [2%Z]).

(** The collaborators of [sample], except that the splits are
    [bad_splits]. *)
Definition bad_collaborators
  : Collaborators sym.t string string string := {|
  weights := nat;
  open_graph := λ _, sample.graph;
  strip_graph := λ kg _, (sample.targets, kg);
  generate := λ _ _, sample.A;
  is_readable := λ _, true;
  tar_read := λ _, (sample.A, sample.X, sample.Y, [0; 1]);
  create_splits := λ _ _ _ _ _, bad_splits;
  sample_mask := λ _ _, [true; false; false];
  initial_weights := λ _, 0;
  fit := λ _ _ _ _ _ w, S w;
  predict := λ _ _ _ _, sample.P;
  clock := λ n, sym.Lit (Z.of_nat n # 1)
|}.

(** The model built for [three_layers]. *)
Definition model3 : keras.Model :=
  Eval vm_compute in
    match build_model sample.X sample.Y sample.A three_layers with
    | Ok m => m
    | Raise _ => keras.mk_Model [] (keras.Input 0 false) "" (keras.Adam 0) []
    end.

(** Other predictions for the three nodes. *)
Definition P2 : np.ndarray sym.t :=
  np.mk_ndarray 2 [[sym.Lit (6 # 10); sym.Lit (4 # 10)];
                   [sym.Lit (9 # 10); sym.Lit (1 # 10)];
                   [sym.Lit (1 # 2); sym.Lit (1 # 2)]].

(** The collaborators of [sample], except that the prediction changes with
    the parameters: [sample.P] after an odd number of training steps, [P2]
    after an even number. *)
Definition learning_collaborators
  : Collaborators sym.t string string string := {|
  weights := nat;
  open_graph := λ _, sample.graph;
  strip_graph := λ kg _, (sample.targets, kg);
  generate := λ _ _, sample.A;
  is_readable := λ _, true;
  tar_read := λ _, (sample.A, sample.X, sample.Y, [0; 1]);
  create_splits := λ _ _ _ _ _, sample.splits;
  sample_mask := λ _ _, [true; false; false];
  initial_weights := λ _, 0;
  fit := λ _ _ _ _ _ w, S w;
  predict := λ _ _ _ w, if Nat.odd w then sample.P else P2;
  clock := λ n, sym.Lit (Z.of_nat n # 1)
|}.

(** The model that [generate_task] builds for the sample graph and
    targets with [three_layers]. *)
Definition task_model : keras.Model :=
  Eval vm_compute in
    match build_model built.1.1 built.1.2 sample.A three_layers with
    | Ok m => m
    | Raise _ => keras.mk_Model [] (keras.Input 0 false) "" (keras.Adam 0) []
    end.

(** The classes of [sample.targets] in an order of their own. *)
Definition class_order : list string := ["y"; "x"]%string.

End sample2.

(** * Properties *)

(** ** Comprehensions that may raise *)

Lemma for_each_ok {A B} (f : A → result B) (g : A → B) (l : list A) :
  Forall (λ x, f x = Ok (g x)) l → for_each f l = Ok (g <$> l).
Proof.
  induction 1 as [|x l Hx _ IH]; [done|].
  cbn. rewrite Hx. cbn. rewrite IH. done.
Qed.

Lemma for_each_raise {A B} (f : A → result B) (l1 l2 : list A) x e :
  Forall (λ y, ∃ b, f y = Ok b) l1 → f x = Raise e →
  for_each f (l1 ++ x :: l2) = Raise e.
Proof.
  intros Hl Hx. induction Hl as [|y l1 [b Hy] _ IH]; cbn.
  - by rewrite Hx.
  - rewrite Hy. cbn. by rewrite IH.
Qed.

Lemma fmap_zip {A B C} (g : A * B → C) (l : list A) (k : list B) :
  g <$> zip l k = zip_with (λ a b, g (a, b)) l k.
Proof.
  revert k. induction l as [|a l IH]; intros [|b k]; cbn; [done..|].
  by rewrite <- IH.
Qed.

Lemma bind_Ok {A B} (a : A) (f : A → result B) : Ok a ≫= f = f a.
Proof. reflexivity. Qed.

(** ** NumPy indexing and extraction *)

Section numpy_facts.
Context {A : Type}.

Lemma getitem_slice (m : np.ndarray A) (idx : list Z) :
  in_range (np.nrows m) idx →
  np.getitem m idx = Ok (slice m (Z.to_nat <$> idx)).
Proof.
  intros Hidx. unfold np.getitem, slice.
  rewrite (for_each_ok _ (λ i, default [] (np.rows m !! Z.to_nat i))).
  - cbn. by rewrite <- list_fmap_compose.
  - eapply Forall_impl; [exact Hidx|]. intros i Hi. cbn in Hi.
    unfold np.normalize_index. rewrite decide_True by done. cbn.
    destruct (lookup_lt_is_Some_2 (np.rows m) (Z.to_nat i)) as [r Hr].
    { unfold np.nrows in Hi. lia. }
    by rewrite Hr.
Qed.

Lemma take_nonzero_from (c : list Z) (a pre : list A) :
  length c = length a →
  np.take (pre ++ a) (np.nonzero_from (length pre) c) = Ok (select c a).
Proof.
  revert a pre. induction c as [|x c IH]; intros a pre Hlen.
  - by destruct a.
  - destruct a as [|y a]; [done|]. cbn in Hlen.
    assert (Hstep : np.take (pre ++ y :: a) (np.nonzero_from (S (length pre)) c)
                    = Ok (select c a)).
    { rewrite (cons_middle y pre a), (assoc_L (++)).
      replace (S (length pre)) with (length (pre ++ [y]))
        by (rewrite length_app; cbn; lia).
      apply IH. lia. }
    cbn. destruct (decide (x = 0%Z)); [done|].
    cbn. rewrite list_lookup_middle by done. cbn.
    unfold np.take in Hstep. by rewrite Hstep.
Qed.

Lemma select_app (c1 c2 : list Z) (a1 a2 : list A) :
  length c1 = length a1 →
  select (c1 ++ c2) (a1 ++ a2) = select c1 a1 ++ select c2 a2.
Proof.
  revert a1. induction c1 as [|x c1 IH]; intros [|y a1] Hlen; try done.
  cbn in *. destruct (decide (x = 0%Z)); cbn; rewrite IH by lia; done.
Qed.

Lemma select_concat (Ls : list (list Z)) (Ps : list (list A)) :
  Forall2 (λ l p, length l = length p) Ls Ps →
  select (concat Ls) (concat Ps) = concat (zip_with select Ls Ps).
Proof.
  induction 1 as [|l p Ls Ps Hlp _ IH]; [done|].
  cbn. by rewrite select_app, IH.
Qed.

Lemma extract_rows (L : np.ndarray Z) (P : np.ndarray A) :
  Forall2 (λ l p, length l = length p) (np.rows L) (np.rows P) →
  np.extract L P = Ok (concat (zip_with select (np.rows L) (np.rows P))).
Proof.
  intros Hrows. unfold np.extract, np.ravel, np.nonzero.
  rewrite <- select_concat by done.
  apply (take_nonzero_from _ _ []).
  clear -Hrows. induction Hrows as [|l p Ls Ps Hlp _ IH]; [done|].
  cbn. rewrite !length_app. lia.
Qed.

(** On a row of zeros and ones, what [np.extract] keeps is what stands at
    the columns labelled one. *)
Lemma select_columns (l : list Z) (p : list A) :
  length l = length p → Forall (λ y, y = 0%Z ∨ y = 1%Z) l →
  select l p =
    (c ← seq 0 (length p);
     if decide (l !! c = Some 1%Z) then option_list (p !! c) else []).
Proof.
  revert p. induction l as [|x l IH]; intros [|y p] Hlen H01; try done.
  cbn in Hlen. apply Forall_cons in H01 as [Hx H01].
  cbn [length seq]. rewrite <- fmap_S_seq.
  change (select (x :: l) (y :: p))
    with (if decide (x = 0%Z) then select l p else y :: select l p).
  rewrite IH by (done || lia).
  rewrite bind_cons, list_fmap_bind.
  destruct Hx as [-> | ->]; cbn; done.
Qed.

End numpy_facts.

(** ** The masked evaluator in closed form *)

Section evaluator_facts.
Context {F : Type} `{Float64 F}.

Lemma row_length {A} (m : np.ndarray A) (i : nat) :
  np.wf m → i < np.nrows m →
  ∃ r, np.rows m !! i = Some r ∧ length r = np.ncols m.
Proof.
  intros Hwf Hi. destruct (lookup_lt_is_Some_2 (np.rows m) i Hi) as [r Hr].
  exists r. split; [done|].
  unfold np.wf in Hwf. rewrite Forall_lookup in Hwf. by eapply Hwf.
Qed.

Lemma slice_rows_aligned (P : np.ndarray F) (L : np.ndarray Z)
    (subset : list nat) :
  np.wf P → np.wf L → np.shape L = np.shape P →
  Forall (λ i, i < np.nrows P) subset →
  Forall2 (λ l p, length l = length p)
    (np.rows (slice L subset)) (np.rows (slice P subset)).
Proof.
  intros HP HL Hshape Hs. injection Hshape as Hn Hc.
  unfold slice; cbn. apply Forall2_fmap, Forall_Forall2_diag.
  eapply Forall_impl; [exact Hs|]. intros i Hi. cbn in Hi.
  destruct (row_length P i HP Hi) as (p & -> & Hp).
  destruct (row_length L i HL) as (l & -> & Hl); [lia|].
  cbn. lia.
Qed.

Lemma categorical_crossentropy_slice (P : np.ndarray F) (L : np.ndarray Z)
    (subset : list nat) :
  np.wf P → np.wf L → np.shape L = np.shape P →
  Forall (λ i, i < np.nrows P) subset →
  categorical_crossentropy (slice P subset) (slice L subset)
  = Ok (extracted_loss P L subset).
Proof.
  intros HP HL Hshape Hs. unfold categorical_crossentropy.
  rewrite extract_rows by by apply slice_rows_aligned.
  done.
Qed.

Lemma masked_entries_select (P : np.ndarray F) (L : np.ndarray Z)
    (subset : list nat) :
  np.wf P → np.wf L → np.shape L = np.shape P → zero_one L →
  Forall (λ i, i < np.nrows P) subset →
  masked_entries P L subset
  = concat (zip_with select (np.rows (slice L subset))
                            (np.rows (slice P subset))).
Proof.
  intros HP HL Hshape H01 Hs. injection Hshape as Hn Hc.
  unfold masked_entries, slice; cbn.
  induction Hs as [|i subset Hi _ IH]; [done|].
  rewrite bind_cons, IH. cbn. f_equal.
  destruct (row_length P i HP Hi) as (p & Hp & Hlp).
  destruct (row_length L i HL) as (l & Hl & Hll); [lia|].
  rewrite Hp, Hl. cbn.
  rewrite select_columns.
  - rewrite Hlp. apply list_bind_ext; [|done]. intros c.
    unfold np.entry. rewrite Hp, Hl. done.
  - lia.
  - unfold zero_one in H01. rewrite Forall_lookup in H01. by eapply H01.
Qed.

Lemma extracted_loss_masked (P : np.ndarray F) (L : np.ndarray Z)
    (subset : list nat) :
  np.wf P → np.wf L → np.shape L = np.shape P → zero_one L →
  Forall (λ i, i < np.nrows P) subset →
  extracted_loss P L subset = masked_loss P L subset.
Proof.
  intros. unfold extracted_loss, masked_loss.
  by rewrite masked_entries_select.
Qed.

Lemma argmax_axis1_slice {A} (argmax_row : list A → result nat)
    (m : np.ndarray A) (subset : list nat) :
  (∀ r, r ≠ [] → ∃ a, argmax_row r = Ok a) →
  np.wf m → 0 < np.ncols m → Forall (λ i, i < np.nrows m) subset →
  np.argmax_axis1 argmax_row (slice m subset)
  = Ok ((λ i, match argmax_row (default [] (np.rows m !! i)) with
              | Ok a => a
              | Raise _ => 0
              end) <$> subset).
Proof.
  intros Hrow Hwf Hc Hs. unfold np.argmax_axis1.
  rewrite decide_False by (cbn; lia). cbn.
  rewrite (for_each_ok _ (λ r, match argmax_row r with
                               | Ok a => a
                               | Raise _ => 0
                               end)).
  - by rewrite <- list_fmap_compose.
  - apply Forall_fmap. eapply Forall_impl; [exact Hs|].
    intros i Hi. cbn in *.
    destruct (row_length m i Hwf Hi) as (r & -> & Hr). cbn.
    destruct (Hrow r) as [a ->]; [|done].
    intros ->. cbn in Hr. lia.
Qed.

Lemma accuracy_slice (P : np.ndarray F) (L : np.ndarray Z)
    (subset : list nat) :
  np.wf P → np.wf L → np.shape L = np.shape P → 0 < np.ncols P →
  Forall (λ i, i < np.nrows P) subset →
  accuracy (slice P subset) (slice L subset)
  = Ok (masked_accuracy P L subset).
Proof.
  intros HP HL Hshape Hc Hs. injection Hshape as Hn Hcols.
  unfold accuracy.
  assert (Hint : ∀ r : list Z, r ≠ [] → ∃ a, np.argmax_int r = Ok a).
  { intros [|x r] Hr; [done|]. by eexists. }
  assert (Hfloat : ∀ r : list F, r ≠ [] → ∃ a, np.argmax_float r = Ok a).
  { intros [|x r] Hr; [done|]. by eexists. }
  rewrite (argmax_axis1_slice np.argmax_int L) by (done || lia || (eapply Forall_impl; [exact Hs|]; cbn; lia)).
  cbn.
  rewrite (argmax_axis1_slice np.argmax_float P) by done.
  cbn. f_equal. unfold np.mean_bool, masked_accuracy, np.equal.
  rewrite length_zip_with, !length_fmap, Nat.min_id. f_equal. f_equal.
  induction Hs as [|i subset Hi _ IH]; [done|].
  cbn [fmap list_fmap zip_with]. rewrite !filter_cons.
  assert (Hhit : (match np.argmax_int (default [] (np.rows L !! i)) with
                  | Ok a => a | Raise _ => 0 end
                  =? match np.argmax_float (default [] (np.rows P !! i)) with
                     | Ok a => a | Raise _ => 0 end) = hit P L i).
  { unfold hit.
    destruct (row_length P i HP Hi) as (p & -> & Hp).
    destruct (row_length L i HL) as (l & -> & Hl); [lia|]. cbn.
    destruct p as [|x p]; [cbn in Hp; lia|].
    destruct l as [|y l]; [cbn in Hl; lia|]. done. }
  rewrite Hhit. destruct (hit P L i); cbn.
  - rewrite decide_True by done. rewrite decide_True by done.
    cbn. f_equal. apply IH.
  - rewrite decide_False by done. rewrite decide_False by done. apply IH.
Qed.

Lemma in_range_to_nat (N : nat) (idx : list Z) :
  in_range N idx → Forall (λ i, i < N) (Z.to_nat <$> idx).
Proof.
  intros Hidx. apply Forall_fmap. eapply Forall_impl; [exact Hidx|].
  intros i Hi. cbn in *. lia.
Qed.

Lemma evaluate_loop_ok (P : np.ndarray F)
    (pairs : list (np.ndarray Z * list Z)) (split_loss split_acc : list F) :
  np.wf P → 0 < np.ncols P → Forall (fits P) pairs →
  evaluate_loop (Some P) pairs split_loss split_acc
  = Ok (split_loss ++
          ((λ pair, extracted_loss P pair.1 (Z.to_nat <$> pair.2)) <$> pairs),
        split_acc ++
          ((λ pair, masked_accuracy P pair.1 (Z.to_nat <$> pair.2)) <$> pairs)).
Proof.
  intros HP Hc Hpairs. revert split_loss split_acc.
  induction Hpairs as [|[L idx] pairs (HL & Hshape & Hidx) _ IH];
    intros split_loss split_acc.
  - cbn. by rewrite !app_nil_r.
  - cbn in HL, Hshape, Hidx.
    assert (HidxL : in_range (np.nrows L) idx).
    { injection Hshape as -> _. done. }
    pose proof (in_range_to_nat _ _ Hidx) as Hs.
    change (evaluate_loop (Some P) ((L, idx) :: pairs) split_loss split_acc)
      with (p ← np.getitem P idx;
            y ← np.getitem L idx;
            loss ← categorical_crossentropy p y;
            p' ← np.getitem P idx;
            y' ← np.getitem L idx;
            acc ← accuracy p' y';
            evaluate_loop (Some P) pairs (split_loss ++ [loss])
              (split_acc ++ [acc])).
    rewrite (getitem_slice P idx Hidx), (getitem_slice L idx HidxL).
    rewrite 2!bind_Ok.
    rewrite (categorical_crossentropy_slice P L _ HP HL Hshape Hs).
    rewrite 3!bind_Ok.
    rewrite (accuracy_slice P L _ HP HL Hshape Hc Hs).
    rewrite bind_Ok, IH.
    rewrite <- !(assoc_L (++)). done.
Qed.

Lemma evaluate_preds_ok (P : np.ndarray F) (labels : list (np.ndarray Z))
    (indices : list (list Z)) :
  np.wf P → 0 < np.ncols P → Forall (fits P) (zip labels indices) →
  evaluate_preds (Some P) labels indices
  = Ok (zip_with (λ L idx, extracted_loss P L (Z.to_nat <$> idx))
          labels indices,
        zip_with (λ L idx, masked_accuracy P L (Z.to_nat <$> idx))
          labels indices).
Proof.
  intros HP Hc Hfit. unfold evaluate_preds.
  rewrite evaluate_loop_ok by done.
  rewrite !app_nil_l, !fmap_zip. done.
Qed.

End evaluator_facts.

(** ** The masked evaluator: loss, accuracy, empty subsets *)

Section evaluator_claims.
Context {F : Type} `{Float64 F}.

Lemma fits_zip (P : np.ndarray F) (labels : list (np.ndarray Z))
    (indices : list (list Z)) :
  Forall (λ L, np.wf L ∧ np.shape L = np.shape P) labels →
  Forall (in_range (np.nrows P)) indices →
  Forall (fits P) (zip labels indices).
Proof.
  intros HL. revert indices.
  induction HL as [|L labels [HwfL Hshape] _ IH]; intros indices Hidx;
    [constructor|].
  destruct Hidx as [|idx indices Hi Hidx]; [constructor|].
  cbn. constructor; [done|]. by apply IH.
Qed.

(** C1. For a prediction matrix [P], label matrices of zeros and ones of
    the shape of [P] and index subsets inside [P], [evaluate_preds]
    returns, and the loss it returns for each (label, subset) pair is the
    mean of [-log(P[i, c])] over the positions [(i, c)] with [i] in the
    subset and [label[i, c] = 1]; that value is what the unmasked
    cross-entropy gives on [P] and the label matrix cut down to the rows
    of the subset. *)
Theorem evaluate_preds_loss (P : np.ndarray F)
    (labels : list (np.ndarray Z)) (indices : list (list Z)) :
  np.wf P → 0 < np.ncols P →
  Forall (λ L, np.wf L ∧ np.shape L = np.shape P ∧ zero_one L) labels →
  Forall (in_range (np.nrows P)) indices →
  ∃ losses accs,
    evaluate_preds (Some P) labels indices = Ok (losses, accs) ∧
    losses = zip_with (λ L idx, masked_loss P L (Z.to_nat <$> idx))
               labels indices ∧
    ∀ k L idx, labels !! k = Some L → indices !! k = Some idx →
      losses !! k = Some (masked_loss P L (Z.to_nat <$> idx)) ∧
      categorical_crossentropy (slice P (Z.to_nat <$> idx))
                               (slice L (Z.to_nat <$> idx))
      = Ok (masked_loss P L (Z.to_nat <$> idx)).
Proof.
  intros HP Hc HL Hidx.
  assert (Hfits : Forall (fits P) (zip labels indices)).
  { apply fits_zip; [|done]. eapply Forall_impl; [exact HL|].
    cbn. tauto. }
  assert (Hmasked : ∀ k L idx,
             labels !! k = Some L → indices !! k = Some idx →
             extracted_loss P L (Z.to_nat <$> idx)
             = masked_loss P L (Z.to_nat <$> idx)
             ∧ Forall (λ i, i < np.nrows P) (Z.to_nat <$> idx)
             ∧ np.wf L ∧ np.shape L = np.shape P).
  { intros k L idx HkL Hkidx.
    rewrite Forall_lookup in HL. destruct (HL k L HkL) as (HwfL & Hsh & H01).
    rewrite Forall_lookup in Hidx. specialize (Hidx k idx Hkidx).
    pose proof (in_range_to_nat _ _ Hidx) as Hs.
    split; [|done]. by apply extracted_loss_masked. }
  eexists _, _. split; [by apply evaluate_preds_ok|]. split.
  - apply list_eq. intros k. rewrite !lookup_zip_with.
    destruct (labels !! k) as [L|] eqn:HkL; [|done].
    destruct (indices !! k) as [idx|] eqn:Hkidx; [|done]. cbn.
    f_equal. by eapply Hmasked.
  - intros k L idx HkL Hkidx.
    destruct (Hmasked k L idx HkL Hkidx) as (Heq & Hs & HwfL & Hsh).
    rewrite lookup_zip_with, HkL, Hkidx. cbn. rewrite Heq. split; [done|].
    rewrite <- Heq. by apply categorical_crossentropy_slice.
Qed.

(** C2. Under the same conditions, the accuracy returned for each (label,
    subset) pair is the fraction of the rows [i] of the subset at which
    the argmax of [P[i]] is the argmax of the label row; the two returned
    lists have one entry per pair, the [k]-th loss and the [k]-th accuracy
    being those of the [k]-th pair. *)
Theorem evaluate_preds_accuracy (P : np.ndarray F)
    (labels : list (np.ndarray Z)) (indices : list (list Z)) :
  np.wf P → 0 < np.ncols P →
  Forall (λ L, np.wf L ∧ np.shape L = np.shape P) labels →
  Forall (in_range (np.nrows P)) indices →
  ∃ losses accs,
    evaluate_preds (Some P) labels indices = Ok (losses, accs) ∧
    accs = zip_with (λ L idx, masked_accuracy P L (Z.to_nat <$> idx))
             labels indices ∧
    length losses = length (zip labels indices) ∧
    length accs = length (zip labels indices) ∧
    ∀ k L idx, labels !! k = Some L → indices !! k = Some idx →
      ∃ loss,
        losses !! k = Some loss ∧
        accs !! k = Some (masked_accuracy P L (Z.to_nat <$> idx)) ∧
        categorical_crossentropy (slice P (Z.to_nat <$> idx))
                                 (slice L (Z.to_nat <$> idx)) = Ok loss ∧
        accuracy (slice P (Z.to_nat <$> idx)) (slice L (Z.to_nat <$> idx))
        = Ok (masked_accuracy P L (Z.to_nat <$> idx)).
Proof.
  intros HP Hc HL Hidx.
  pose proof (fits_zip P labels indices HL Hidx) as Hfits.
  eexists _, _. split; [by apply evaluate_preds_ok|].
  split; [done|]. split; [by rewrite length_zip_with, length_zip|].
  split; [by rewrite length_zip_with, length_zip|].
  intros k L idx HkL Hkidx.
  rewrite Forall_lookup in HL. destruct (HL k L HkL) as (HwfL & Hsh).
  rewrite Forall_lookup in Hidx. specialize (Hidx k idx Hkidx).
  pose proof (in_range_to_nat _ _ Hidx) as Hs.
  exists (extracted_loss P L (Z.to_nat <$> idx)).
  rewrite !lookup_zip_with, HkL, Hkidx. cbn.
  split; [done|]. split; [done|].
  split; [by apply categorical_crossentropy_slice|by apply accuracy_slice].
Qed.

(** C4, as the code has it. [evaluate_preds] has no guard for an empty
    index subset: on matrices with at least one column it does not fail,
    and for a pair whose subset is empty it returns as loss the sum of no
    element divided by zero and as accuracy zero divided by zero. *)
Theorem evaluate_preds_empty_subset (P : np.ndarray F)
    (labels : list (np.ndarray Z)) (indices : list (list Z)) (k : nat)
    (L : np.ndarray Z) :
  np.wf P → 0 < np.ncols P →
  Forall (λ L, np.wf L ∧ np.shape L = np.shape P) labels →
  Forall (in_range (np.nrows P)) indices →
  labels !! k = Some L → indices !! k = Some [] →
  ∃ losses accs,
    evaluate_preds (Some P) labels indices = Ok (losses, accs) ∧
    losses !! k = Some (fdiv (fsum []) (of_nat 0)) ∧
    accs !! k = Some (fdiv (of_nat 0) (of_nat 0)).
Proof.
  intros HP Hc HL Hidx HkL Hkidx.
  pose proof (fits_zip P labels indices HL Hidx) as Hfits.
  eexists _, _. split; [by apply evaluate_preds_ok|].
  rewrite !lookup_zip_with, HkL, Hkidx. done.
Qed.

End evaluator_claims.

Lemma evaluate_preds_loss_witness :
  ∃ losses accs,
    evaluate_preds (Some sample.P) [sample.L] [[0; 1]%Z] = Ok (losses, accs) ∧
    losses = zip_with (λ L idx, masked_loss sample.P L (Z.to_nat <$> idx))
               [sample.L] [[0; 1]%Z] ∧
    ∀ k L idx, [sample.L] !! k = Some L → [[0; 1]%Z] !! k = Some idx →
      losses !! k = Some (masked_loss sample.P L (Z.to_nat <$> idx)) ∧
      categorical_crossentropy (slice sample.P (Z.to_nat <$> idx))
                               (slice L (Z.to_nat <$> idx))
      = Ok (masked_loss sample.P L (Z.to_nat <$> idx)).
Proof.
  apply (evaluate_preds_loss sample.P [sample.L] [[0; 1]%Z]).
  - repeat constructor.
  - cbn. lia.
  - apply Forall_cons_2; [|constructor]. split; [repeat constructor|].
    split; [reflexivity|]. unfold zero_one. cbn.
    repeat (first [apply Forall_nil_2 | apply Forall_cons_2]); auto.
  - repeat constructor; cbn; lia.
Defined.

Lemma evaluate_preds_accuracy_witness :
  ∃ losses accs,
    evaluate_preds (Some sample.P) [sample.L; sample.L] [[0; 1]; [2; 1]]%Z
    = Ok (losses, accs) ∧
    accs = zip_with (λ L idx, masked_accuracy sample.P L (Z.to_nat <$> idx))
             [sample.L; sample.L] [[0; 1]; [2; 1]]%Z ∧
    length losses = length (zip [sample.L; sample.L] [[0; 1]; [2; 1]]%Z) ∧
    length accs = length (zip [sample.L; sample.L] [[0; 1]; [2; 1]]%Z) ∧
    ∀ k L idx, [sample.L; sample.L] !! k = Some L →
      [[0; 1]; [2; 1]]%Z !! k = Some idx →
      ∃ loss,
        losses !! k = Some loss ∧
        accs !! k = Some (masked_accuracy sample.P L (Z.to_nat <$> idx)) ∧
        categorical_crossentropy (slice sample.P (Z.to_nat <$> idx))
                                 (slice L (Z.to_nat <$> idx)) = Ok loss ∧
        accuracy (slice sample.P (Z.to_nat <$> idx))
                 (slice L (Z.to_nat <$> idx))
        = Ok (masked_accuracy sample.P L (Z.to_nat <$> idx)).
Proof.
  apply (evaluate_preds_accuracy sample.P [sample.L; sample.L]
           [[0; 1]; [2; 1]]%Z).
  - repeat constructor.
  - cbn. lia.
  - repeat constructor.
  - repeat constructor; cbn; lia.
Defined.

Lemma evaluate_preds_empty_subset_witness :
  ∃ losses accs,
    evaluate_preds (Some sample.P) [sample.L; sample.L] [[0; 1]%Z; []]
    = Ok (losses, accs) ∧
    losses !! 1 = Some (sym.Div (sym.Sum []) (sym.OfNat 0)) ∧
    accs !! 1 = Some (sym.Div (sym.OfNat 0) (sym.OfNat 0)).
Proof.
  refine (evaluate_preds_empty_subset sample.P [sample.L; sample.L]
            [[0; 1]%Z; []] 1 sample.L _ _ _ _ _ _).
  - repeat constructor.
  - cbn. lia.
  - repeat constructor.
  - repeat constructor; cbn; lia.
  - reflexivity.
  - reflexivity.
Defined.

(** C4, as stated, fails: called with an empty index subset,
    [evaluate_preds] raises nothing and returns the two divisions by zero as
    the loss and the accuracy. *)
Lemma evaluate_preds_empty_subset_not_guarded :
  evaluate_preds (Some sample.P) [sample.L] [[]]
  = Ok ([sym.Div (sym.Sum []) (sym.OfNat 0)],
        [sym.Div (sym.OfNat 0) (sym.OfNat 0)])
  ∧ ∀ e, evaluate_preds (Some sample.P) [sample.L] [[]] ≠ Raise e.
Proof. split; [reflexivity|]. intros e. discriminate. Qed.

(** ** Dictionaries built from an enumeration *)

Section dict_facts.
Context `{Countable K}.

Lemma enumerate_snoc (start : nat) (l : list K) (x : K) :
  enumerate start (l ++ [x]) = enumerate start l ++ [(start + length l, x)].
Proof.
  unfold enumerate. rewrite length_app. cbn [length].
  rewrite Nat.add_1_r, seq_S.
  rewrite zip_with_app by by rewrite length_seq. done.
Qed.

Lemma dict_of_snoc (pairs : list (nat * K)) (p : nat * K) :
  dict_of (pairs ++ [p]) = <[p.2 := p.1]> (dict_of pairs).
Proof. unfold dict_of. by rewrite foldl_app. Qed.

(** Over an enumeration without repetition the dictionary is the inverse
    of the enumeration, and it has as many keys as the enumeration has
    elements. *)
Lemma dict_of_enumerate (l : list K) :
  NoDup l →
  (∀ x i, dict_of (enumerate 0 l) !! x = Some i ↔ l !! i = Some x)
  ∧ size (dict_of (enumerate 0 l)) = length l.
Proof.
  induction l as [|y l IH] using rev_ind; intros Hnd.
  - split; [|done]. intros x i. unfold dict_of; cbn.
    rewrite lookup_empty. done.
  - apply NoDup_app in Hnd as (Hl & Hy & _).
    destruct (IH Hl) as [IHlookup IHsize].
    assert (Hfresh : dict_of (enumerate 0 l) !! y = None).
    { destruct (dict_of (enumerate 0 l) !! y) as [i|] eqn:Hi; [|done].
      apply IHlookup in Hi. exfalso. apply (Hy y).
      - eapply list_elem_of_lookup_2. exact Hi.
      - apply list_elem_of_here. }
    rewrite enumerate_snoc, dict_of_snoc. cbn [fst snd]. split.
    + intros x i. destruct (decide (x = y)) as [->|Hne].
      * rewrite lookup_insert_eq. split.
        -- intros [= <-]. by rewrite list_lookup_middle.
        -- intros Hi. f_equal.
           destruct (decide (i = length l)) as [->|Hil]; [done|].
           exfalso. apply (Hy y); [|apply list_elem_of_here].
           apply lookup_lt_Some in Hi as Hlt. rewrite length_app in Hlt.
           cbn in Hlt. rewrite lookup_app_l in Hi by lia.
           eapply list_elem_of_lookup_2. exact Hi.
      * rewrite lookup_insert_ne by done. rewrite IHlookup. split.
        -- intros Hi. rewrite lookup_app_l; [done|].
           by eapply lookup_lt_Some.
        -- intros Hi. apply lookup_lt_Some in Hi as Hlt.
           rewrite length_app in Hlt. cbn in Hlt.
           destruct (decide (i = length l)) as [->|Hil].
           ++ rewrite list_lookup_middle in Hi by done. congruence.
           ++ rewrite lookup_app_l in Hi by lia. done.
    + rewrite map_size_insert_None by done. rewrite length_app. cbn. lia.
Qed.

Lemma dict_of_enumerate_elem (l : list K) (x : K) :
  NoDup l → x ∈ l →
  ∃ i, dict_of (enumerate 0 l) !! x = Some i
       ∧ i < size (dict_of (enumerate 0 l)).
Proof.
  intros Hnd Hx. destruct (dict_of_enumerate l Hnd) as [Hlookup Hsize].
  apply list_elem_of_lookup_1 in Hx as [i Hi]. exists i. split.
  - by apply Hlookup.
  - rewrite Hsize. by eapply lookup_lt_Some.
Qed.

Lemma dict_of_enumerate_inj (l : list K) (x y : K) (i : nat) :
  NoDup l →
  dict_of (enumerate 0 l) !! x = Some i →
  dict_of (enumerate 0 l) !! y = Some i → x = y.
Proof.
  intros Hnd Hx Hy. destruct (dict_of_enumerate l Hnd) as [Hlookup _].
  apply Hlookup in Hx, Hy. congruence.
Qed.

End dict_facts.

(** ** Sparse matrices built from coordinates *)

Lemma zip_ones {A} (l : list A) :
  zip l (replicate (length l) 1%Z) = (λ p, (p, 1%Z)) <$> l.
Proof. induction l as [|x l IH]; [done|]. cbn. by rewrite IH. Qed.

(** When no coordinate is given twice, the stored entries are a one at each
    given coordinate. *)
Lemma foldl_add_entry_ones (pairs : list (nat * nat))
    (d : gmap (nat * nat) Z) (q : nat * nat) :
  NoDup pairs → (∀ p, p ∈ pairs → d !! p = None) →
  foldl sp.add_entry d ((λ p, (p, 1%Z)) <$> pairs) !! q
  = if decide (q ∈ pairs) then Some 1%Z else d !! q.
Proof.
  intros Hnd. revert d.
  induction Hnd as [|[i j] pairs Hp Hnd IH]; intros d Hd.
  - cbn. rewrite decide_False by apply not_elem_of_nil. done.
  - cbn [fmap list_fmap foldl sp.add_entry].
    rewrite (Hd (i, j)) by apply list_elem_of_here. cbn [default].
    change (sp.wrap32 (0 + 1)) with 1%Z.
    rewrite IH.
    + destruct (decide (q ∈ pairs)) as [Hq|Hq].
      * rewrite decide_True by by apply list_elem_of_further. done.
      * destruct (decide (q = (i, j))) as [->|Hne].
        -- rewrite decide_True by apply list_elem_of_here.
           by rewrite lookup_insert_eq.
        -- rewrite decide_False
             by (intros [->|Hin]%elem_of_cons; done).
           by rewrite lookup_insert_ne.
    + intros p' Hp'. rewrite lookup_insert_ne by (intros <-; done).
      apply Hd. by apply list_elem_of_further.
Qed.

Lemma from_coo_ones (pairs : list (nat * nat)) (shape : nat * nat) :
  Forall (λ p, p.1 < shape.1 ∧ p.2 < shape.2) pairs →
  sp.from_coo (replicate (length pairs) 1%Z) (fst <$> pairs) (snd <$> pairs)
    shape
  = Ok (sp.mk_csr sp.int32 shape
          (foldl sp.add_entry ∅ ((λ p, (p, 1%Z)) <$> pairs))).
Proof.
  intros Hin. unfold sp.from_coo.
  rewrite bool_decide_eq_true_2
    by by rewrite !length_fmap, length_replicate.
  cbn [negb]. rewrite bool_decide_eq_false_2.
  2:{ rewrite Exists_fmap, <- Forall_Exists_neg.
      eapply Forall_impl; [exact Hin|]. cbn. lia. }
  rewrite bool_decide_eq_false_2.
  2:{ rewrite Exists_fmap, <- Forall_Exists_neg.
      eapply Forall_impl; [exact Hin|]. cbn. lia. }
  by rewrite zip_fst_snd, zip_ones.
Qed.

Lemma for_each_some_raise {A B} (f : A → result B) (l : list A) (e : exn) :
  Forall (λ x, f x = Raise e ∨ ∃ b, f x = Ok b) l →
  Exists (λ x, f x = Raise e) l →
  for_each f l = Raise e.
Proof.
  induction 1 as [|x l Hx _ IH]; intros Hex.
  - by apply Exists_nil in Hex.
  - cbn. destruct Hx as [Hx | [b Hx]]; rewrite Hx; [done|]. cbn.
    apply Exists_cons in Hex as [Hex|Hex]; [congruence|].
    by rewrite IH.
Qed.

(** ** The dataset builder *)

Section dataset_claims.
Context {node rel cls : Type} `{Countable node} `{Countable cls}.

Implicit Types (kg : KnowledgeGraph node)
               (targets : list (triple node rel cls)).

Lemma classes_map_lookup targets (t : triple node rel cls) :
  t ∈ targets →
  ∃ j, make_classes_map targets !! t.2 = Some j
       ∧ j < size (make_classes_map targets).
Proof.
  intros Ht. apply dict_of_enumerate_elem; [apply NoDup_elements|].
  apply elem_of_elements. unfold class_set.
  apply elem_of_list_to_set. by apply list_elem_of_fmap_2.
Qed.

Lemma nodes_map_lookup kg (x : node) :
  NoDup (atoms kg) → x ∈ atoms kg →
  ∃ i, make_nodes_map kg !! x = Some i ∧ i < size (make_nodes_map kg).
Proof. intros. by apply dict_of_enumerate_elem. Qed.

Lemma target_labels_ok kg targets :
  NoDup (atoms kg) → Forall (λ t, t.1.1 ∈ atoms kg) targets →
  for_each (λ t : triple node rel cls,
      let '(x, _, y) := t in
      r ← of_option (make_nodes_map kg !! x) KeyError;
      c ← of_option (make_classes_map targets !! y) KeyError;
      Ok (r, c)) targets
  = Ok (coordinates kg targets <$> targets).
Proof.
  intros Hnd Hin. apply for_each_ok.
  rewrite Forall_forall in Hin. apply Forall_forall.
  intros [[x r] y] Ht. unfold coordinates. cbn.
  destruct (nodes_map_lookup kg x Hnd (Hin _ Ht)) as (i & -> & _).
  destruct (classes_map_lookup targets _ Ht) as (j & Hj & _).
  cbn in Hj. rewrite Hj. done.
Qed.

Lemma coordinates_in_shape kg targets :
  NoDup (atoms kg) → Forall (λ t, t.1.1 ∈ atoms kg) targets →
  Forall (λ p, p.1 < (size (make_nodes_map kg),
                      size (make_classes_map targets)).1
               ∧ p.2 < (size (make_nodes_map kg),
                        size (make_classes_map targets)).2)
    (coordinates kg targets <$> targets).
Proof.
  intros Hnd Hin. apply Forall_fmap.
  rewrite Forall_forall in Hin. apply Forall_forall.
  intros [[x r] y] Ht. unfold coordinates. cbn.
  destruct (nodes_map_lookup kg x Hnd (Hin _ Ht)) as (i & -> & Hi).
  destruct (classes_map_lookup targets _ Ht) as (j & Hj & Hjlt).
  cbn in Hj. rewrite Hj. done.
Qed.

(** On a consistent input the builder returns, and what it returns is
    known in closed form. *)
Lemma build_dataset_ok kg targets :
  NoDup (atoms kg) → targets ≠ [] →
  Forall (λ t, t.1.1 ∈ atoms kg) targets →
  build_dataset kg targets
  = Ok (sp.empty (size (make_nodes_map kg), size (make_nodes_map kg)),
        sp.mk_csr sp.int32
          (size (make_nodes_map kg), size (make_classes_map targets))
          (foldl sp.add_entry ∅
             ((λ p, (p, 1%Z)) <$> (coordinates kg targets <$> targets))),
        fst <$> (coordinates kg targets <$> targets)).
Proof.
  intros Hnd Hne Hin. unfold build_dataset.
  rewrite target_labels_ok by done. rewrite bind_Ok.
  unfold unzip_labels.
  destruct (coordinates kg targets <$> targets) as [|p ps] eqn:Hps.
  { by destruct targets. }
  rewrite bind_Ok. rewrite <- Hps.
  rewrite from_coo_ones by by apply coordinates_in_shape.
  done.
Qed.

(** C6. When some target statement names a node that has no entry in
    [nodes_map], [build_dataset] fails with a [KeyError] and returns
    nothing. *)
Theorem build_dataset_unknown_node kg targets :
  Exists (λ t, make_nodes_map kg !! t.1.1 = None) targets →
  build_dataset kg targets = Raise KeyError.
Proof.
  intros Hex. unfold build_dataset.
  rewrite (for_each_some_raise _ targets KeyError); [done| |].
  - apply Forall_forall. intros [[x r] y] _.
    destruct (make_nodes_map kg !! x) as [i|]; [|by left]. cbn.
    destruct (make_classes_map targets !! y) as [j|]; [|by left].
    right. by eexists.
  - eapply Exists_impl; [exact Hex|]. intros [[x r] y] Hx. cbn in *.
    by rewrite Hx.
Qed.

(** C8. [build_dataset] has no feature argument: whenever it returns, the
    feature matrix it returns is the empty sparse matrix of shape [N × N],
    every entry of which reads zero, where [N] is the number of keys of
    [nodes_map]; and it does return on a non-empty list of target
    statements whose nodes are among the atoms of the graph. *)
Theorem build_dataset_features kg targets :
  (∀ X Y X_node_idx,
     build_dataset kg targets = Ok (X, Y, X_node_idx) →
     X = sp.empty (size (make_nodes_map kg), size (make_nodes_map kg))
     ∧ sp.shape X = (size (make_nodes_map kg), size (make_nodes_map kg))
     ∧ ∀ i j, sp.get X i j = 0%Z)
  ∧ (NoDup (atoms kg) → targets ≠ [] →
     Forall (λ t, t.1.1 ∈ atoms kg) targets →
     ∃ Y X_node_idx,
       build_dataset kg targets
       = Ok (sp.empty (size (make_nodes_map kg), size (make_nodes_map kg)),
             Y, X_node_idx)).
Proof.
  split.
  - intros X Y X_node_idx. unfold build_dataset.
    destruct (for_each _ targets) as [target_labels|]; [|done].
    rewrite bind_Ok.
    destruct (unzip_labels target_labels) as [[rows cols]|]; [|done].
    rewrite bind_Ok.
    destruct (sp.from_coo _ _ _ _) as [Y'|]; [|done].
    rewrite bind_Ok. intros [= <- _ _]. done.
  - intros Hnd Hne Hin. eexists _, _. by apply build_dataset_ok.
Qed.

(** C3, as the code has it. For a non-empty list of target statements
    whose nodes are atoms of the graph (enumerated without repetition) and
    in which no node occurs twice, [build_dataset] returns a label matrix
    [Y] of shape [N × C]; for every target statement the entry of [Y] at
    the row of its node and the column of its class is 1 and every other
    entry of that row is 0; every row that is the row of no target node is
    all zero. *)
Theorem build_dataset_labels kg targets :
  NoDup (atoms kg) → targets ≠ [] →
  Forall (λ t, t.1.1 ∈ atoms kg) targets →
  NoDup ((λ t, t.1.1) <$> targets) →
  ∃ X Y X_node_idx,
    build_dataset kg targets = Ok (X, Y, X_node_idx) ∧
    sp.shape Y = (size (make_nodes_map kg), size (make_classes_map targets)) ∧
    (∀ x r y, (x, r, y) ∈ targets →
       ∃ i j, make_nodes_map kg !! x = Some i ∧
              make_classes_map targets !! y = Some j ∧
              i < size (make_nodes_map kg) ∧
              j < size (make_classes_map targets) ∧
              sp.get Y i j = 1%Z ∧
              ∀ j', j' ≠ j → sp.get Y i j' = 0%Z) ∧
    (∀ i, (∀ t, t ∈ targets → make_nodes_map kg !! t.1.1 ≠ Some i) →
          ∀ j, sp.get Y i j = 0%Z).
Proof.
  intros Hnd Hne Hin Htargets.
  eexists _, _, _. split; [by apply build_dataset_ok|].
  split; [done|].
  assert (Hrow : ∀ t, t ∈ targets →
            make_nodes_map kg !! t.1.1 = Some (coordinates kg targets t).1
            ∧ make_classes_map targets !! t.2
              = Some (coordinates kg targets t).2
            ∧ (coordinates kg targets t).1 < size (make_nodes_map kg)
            ∧ (coordinates kg targets t).2 < size (make_classes_map targets)).
  { intros t Ht. rewrite Forall_forall in Hin. unfold coordinates.
    destruct (nodes_map_lookup kg t.1.1 Hnd (Hin _ Ht)) as (i & -> & Hi).
    destruct (classes_map_lookup targets t Ht) as (j & -> & Hj). done. }
  assert (Hinj : ∀ t t', t ∈ targets → t' ∈ targets →
            (coordinates kg targets t).1 = (coordinates kg targets t').1 →
            t = t').
  { intros t t' Ht Ht' Heq.
    destruct (Hrow t Ht) as (Hi & _). destruct (Hrow t' Ht') as (Hi' & _).
    rewrite Heq in Hi.
    pose proof (dict_of_enumerate_inj _ _ _ _ Hnd Hi Hi') as Hnode.
    clear -Htargets Ht Ht' Hnode.
    apply list_elem_of_lookup_1 in Ht as [k Hk].
    apply list_elem_of_lookup_1 in Ht' as [k' Hk'].
    assert (k = k') as <-; [|congruence].
    apply (NoDup_lookup _ k k' t.1.1 Htargets).
    - rewrite list_lookup_fmap. by rewrite Hk.
    - rewrite list_lookup_fmap. rewrite Hk'. cbn. by rewrite Hnode. }
  assert (Hcoords : NoDup (coordinates kg targets <$> targets)).
  { apply NoDup_fmap_2_strong; [|by eapply NoDup_fmap_1].
    intros t t' Ht Ht' Heq. apply Hinj; [done..|]. by rewrite Heq. }
  assert (Hget : ∀ i j,
            sp.get (sp.mk_csr sp.int32
                      (size (make_nodes_map kg),
                       size (make_classes_map targets))
                      (foldl sp.add_entry ∅
                         ((λ p, (p, 1%Z)) <$>
                          (coordinates kg targets <$> targets)))) i j
            = if decide ((i, j) ∈ coordinates kg targets <$> targets)
              then 1%Z else 0%Z).
  { intros i j. unfold sp.get. cbn [sp.data].
    rewrite foldl_add_entry_ones by (done || (intros; apply lookup_empty)).
    case_decide; [done|]. by rewrite lookup_empty. }
  split.
  - intros x r y Ht.
    destruct (Hrow _ Ht) as (Hi & Hj & Hilt & Hjlt). cbn [fst snd] in Hi, Hj.
    eexists _, _. split; [exact Hi|]. split; [exact Hj|].
    split; [done|]. split; [done|]. split.
    + rewrite Hget. rewrite decide_True; [done|].
      apply list_elem_of_fmap. exists (x, r, y). split; [|done].
      by destruct (coordinates kg targets (x, r, y)).
    + intros j' Hj'. rewrite Hget. rewrite decide_False; [done|].
      intros (t' & Heq & Ht')%list_elem_of_fmap.
      assert (t' = (x, r, y)) as ->.
      { apply Hinj; [done..|]. by rewrite <- Heq. }
      apply Hj'. by rewrite <- Heq.
  - intros i Hi j. rewrite Hget. rewrite decide_False; [done|].
    intros (t & Heq & Ht)%list_elem_of_fmap.
    apply (Hi t Ht). destruct (Hrow t Ht) as (-> & _). by rewrite <- Heq.
Qed.

End dataset_claims.

Lemma build_dataset_unknown_node_witness :
  build_dataset sample.graph sample.dangling = Raise KeyError.
Proof.
  apply (build_dataset_unknown_node sample.graph sample.dangling).
  apply Exists_cons_tl, Exists_cons_hd. reflexivity.
Defined.

Lemma sample_graph_NoDup : NoDup (atoms sample.graph).
Proof.
  cbn. repeat (apply NoDup_cons; split); [| |apply not_elem_of_nil|apply NoDup_nil_2].
  - intros [?|[?|?%elem_of_nil]%elem_of_cons]%elem_of_cons; done.
  - intros [?|?%elem_of_nil]%elem_of_cons; done.
Qed.

Lemma build_dataset_features_witness :
  ∃ Y X_node_idx,
    build_dataset sample.graph sample.targets
    = Ok (sp.empty (size (make_nodes_map sample.graph),
                    size (make_nodes_map sample.graph)), Y, X_node_idx).
Proof.
  apply (proj2 (build_dataset_features sample.graph sample.targets)).
  - apply sample_graph_NoDup.
  - discriminate.
  - repeat constructor.
Defined.

Lemma build_dataset_labels_witness :
  ∃ X Y X_node_idx,
    build_dataset sample.graph sample.targets = Ok (X, Y, X_node_idx) ∧
    sp.shape Y = (size (make_nodes_map sample.graph),
                  size (make_classes_map sample.targets)) ∧
    (∀ x r y, (x, r, y) ∈ sample.targets →
       ∃ i j, make_nodes_map sample.graph !! x = Some i ∧
              make_classes_map sample.targets !! y = Some j ∧
              i < size (make_nodes_map sample.graph) ∧
              j < size (make_classes_map sample.targets) ∧
              sp.get Y i j = 1%Z ∧
              ∀ j', j' ≠ j → sp.get Y i j' = 0%Z) ∧
    (∀ i, (∀ t, t ∈ sample.targets →
                make_nodes_map sample.graph !! t.1.1 ≠ Some i) →
          ∀ j, sp.get Y i j = 0%Z).
Proof.
  apply (build_dataset_labels sample.graph sample.targets).
  - apply sample_graph_NoDup.
  - discriminate.
  - repeat constructor.
  - cbn. repeat (apply NoDup_cons; split);
      [|apply not_elem_of_nil|apply NoDup_nil_2].
    intros [?|?%elem_of_nil]%elem_of_cons; done.
Defined.

(** C3, as stated, fails: a statement given twice makes its entry 2, a node
    with two classes gets a row with two ones, and with no statement at all
    nothing is returned. *)
Lemma build_dataset_labels_counterexample :
  (∃ X Y X_node_idx,
     build_dataset sample.graph sample.repeated = Ok (X, Y, X_node_idx) ∧
     make_nodes_map sample.graph !! "a"%string = Some 0 ∧
     make_classes_map sample.repeated !! "x"%string = Some 0 ∧
     sp.get Y 0 0 = 2%Z) ∧
  (∃ X Y X_node_idx,
     build_dataset sample.graph sample.two_classes = Ok (X, Y, X_node_idx) ∧
     make_nodes_map sample.graph !! "a"%string = Some 0 ∧
     sp.get Y 0 0 = 1%Z ∧ sp.get Y 0 1 = 1%Z) ∧
  build_dataset sample.graph ([] : list (triple string string string))
  = Raise ValueError.
Proof.
  split; [|split].
  - eexists _, _, _. split; [vm_compute; reflexivity|]. by vm_compute.
  - eexists _, _, _. split; [vm_compute; reflexivity|]. by vm_compute.
  - reflexivity.
Qed.

(** ** The model builder *)

Section model_claims.
Import keras.

Lemma enumerate_cons {A} (start : nat) (x : A) (l : list A) :
  enumerate start (x :: l) = (start, x) :: enumerate (S start) l.
Proof. done. Qed.

Lemma intermediate_layers_ok (pre mid post : list layer_config)
    (support : nat) (A_in : list tensor) (H : tensor) :
  ∃ H', intermediate_layers (pre ++ mid ++ post) support A_in
          (enumerate (length pre) mid) H = Ok H'
        ∧ graph_convolutions H'
          = graph_convolutions H
            ++ ((λ l, (hidden_nodes l, regularized_kwargs l)) <$> mid).
Proof.
  revert pre H. induction mid as [|l mid IH]; intros pre H.
  - exists H. split; [done|]. by rewrite app_nil_r.
  - rewrite enumerate_cons. cbn [intermediate_layers].
    rewrite <- app_comm_cons.
    rewrite list_lookup_middle by done. cbn [of_option]. rewrite bind_Ok.
    specialize (IH (pre ++ [l])
      (Dropout (dropout l)
         (GraphConvolution (hidden_nodes l) support
            (mk_kwargs (Some (num_bases l)) (Some (featureless l))
                       (Some (activation l)) (Some (l2 (l2norm l))))
            ([H] ++ A_in)))).
    rewrite length_app in IH. cbn [length] in IH.
    rewrite Nat.add_1_r in IH.
    rewrite <- (assoc_L (++)) in IH. cbn [app] in IH.
    destruct IH as (H' & Hrun & Hgc). exists H'. split; [done|].
    rewrite Hgc. cbn. by rewrite <- (assoc_L (++)).
Qed.

Lemma slice_1_m1_middle {A} (x y : A) (mid : list A) :
  slice_1_m1 (x :: mid ++ [y]) = mid.
Proof.
  unfold slice_1_m1. cbn [length]. rewrite length_app. cbn [length].
  replace (S (length mid + 1) - 1) with (S (length mid)) by lia.
  cbn. rewrite take_app_length. done.
Qed.

(** With at least two layers configured the builder returns a model, whose
    graph convolutions are known in closed form. *)
Lemma build_model_ok (X Y : sp.csr_matrix) (A : list sp.csr_matrix)
    (config : config) (first last_layer : layer_config)
    (mid : list layer_config) :
  layers (config_model config) = first :: mid ++ [last_layer] →
  ∃ m, build_model X Y A config = Ok m
       ∧ graph_convolutions (output m)
         = (hidden_nodes first, regularized_kwargs first)
           :: ((λ l, (hidden_nodes l, regularized_kwargs l)) <$> mid)
           ++ [((sp.shape Y).2, plain_kwargs last_layer)].
Proof.
  intros Hlayers. unfold build_model. rewrite Hlayers.
  rewrite bool_decide_eq_true_2
    by (cbn [length]; rewrite length_app; cbn; lia).
  cbn [negb lookup list_lookup of_option]. rewrite bind_Ok.
  rewrite slice_1_m1_middle.
  destruct (intermediate_layers_ok [first] mid [last_layer] (length A)
              ((λ k, InputAdj k true) <$> seq 0 (length A))
              (Dropout (dropout first)
                 (GraphConvolution (hidden_nodes first) (length A)
                    (mk_kwargs (Some (num_bases first))
                               (Some (featureless first))
                               (Some (activation first))
                               (Some (l2 (l2norm first))))
                    ([Input (sp.shape X).2 true]
                     ++ ((λ k, InputAdj k true) <$> seq 0 (length A))))))
    as (H' & Hrun & Hgc).
  cbn [length] in Hrun.
  change ([first] ++ mid ++ [last_layer])
    with (first :: mid ++ [last_layer]) in Hrun.
  rewrite Hrun, bind_Ok.
  rewrite (app_comm_cons mid [last_layer] first), last_snoc.
  cbn [of_option]. rewrite bind_Ok.
  eexists. split; [done|]. cbn. rewrite Hgc. done.
Qed.

Lemma at_least_two {A} (l : list A) :
  2 ≤ length l → ∃ x mid y, l = x :: mid ++ [y].
Proof.
  intros Hlen. destruct l as [|x l]; [cbn in Hlen; lia|].
  destruct l as [|z l _] using rev_ind; [cbn in Hlen; lia|].
  by exists x, l, z.
Qed.

(** C7, as the code has it. For a configuration of at least two layers,
    [build_model] builds one graph convolution per configured layer; every
    one but the last is given the L2 weight regularizer of the [l2norm]
    strength of its table, and the last one, the output layer, is given no
    weight regularizer: it is built with the [num_bases] and the
    [activation] of its table and nothing else of it, whatever [l2norm]
    that table configures. *)
Theorem build_model_regularizers (X Y : sp.csr_matrix)
    (A : list sp.csr_matrix) (config : config) :
  2 ≤ length (layers (config_model config)) →
  ∃ m, build_model X Y A config = Ok m ∧
    length (graph_convolutions (output m))
    = length (layers (config_model config)) ∧
    (∀ i layer, layers (config_model config) !! i = Some layer →
       S i < length (layers (config_model config)) →
       ∃ d kw, graph_convolutions (output m) !! i = Some (d, kw)
               ∧ kw_W_regularizer kw = Some (l2 (l2norm layer))) ∧
    (∃ d kw, last (graph_convolutions (output m)) = Some (d, kw)
             ∧ kw_W_regularizer kw = None) ∧
    (∃ layer, last (layers (config_model config)) = Some layer
              ∧ last (graph_convolutions (output m))
                = Some ((sp.shape Y).2,
                        mk_kwargs (Some (num_bases layer)) None
                                  (Some (activation layer)) None)).
Proof.
  intros Hlen. destruct (at_least_two _ Hlen) as (first & mid & lst & Hl).
  destruct (build_model_ok X Y A config first lst mid Hl) as (m & Hm & Hgc).
  exists m. split; [done|]. rewrite Hgc, Hl. split; [|split; [|split]].
  - cbn [length]. rewrite !length_app, length_fmap. done.
  - intros i layer Hi Hlt. cbn [length] in Hlt. rewrite length_app in Hlt.
    cbn [length] in Hlt.
    destruct i as [|i].
    + cbn in Hi. injection Hi as <-. eexists _, _. split; reflexivity.
    + change ((mid ++ [lst]) !! i = Some layer) in Hi.
      rewrite lookup_app_l in Hi by lia.
      match goal with
      | |- ∃ d kw, (?x :: ?l) !! S i = _ ∧ _ =>
          change ((x :: l) !! S i) with (l !! i)
      end.
      rewrite lookup_app_l by (rewrite length_fmap; lia).
      rewrite list_lookup_fmap, Hi. cbn.
      eexists _, _. split; reflexivity.
  - rewrite app_comm_cons, last_snoc.
    eexists _, _. split; reflexivity.
  - exists lst. rewrite !app_comm_cons, !last_snoc. done.
Qed.

End model_claims.

Lemma build_model_regularizers_witness :
  ∃ m, build_model sample.X sample.Y sample.A sample.two_layers = Ok m ∧
    length (keras.graph_convolutions (keras.output m))
    = length (layers (config_model sample.two_layers)) ∧
    (∀ i layer, layers (config_model sample.two_layers) !! i = Some layer →
       S i < length (layers (config_model sample.two_layers)) →
       ∃ d kw, keras.graph_convolutions (keras.output m) !! i = Some (d, kw)
               ∧ keras.kw_W_regularizer kw = Some (keras.l2 (l2norm layer))) ∧
    (∃ d kw, last (keras.graph_convolutions (keras.output m)) = Some (d, kw)
             ∧ keras.kw_W_regularizer kw = None) ∧
    (∃ layer, last (layers (config_model sample.two_layers)) = Some layer
              ∧ last (keras.graph_convolutions (keras.output m))
                = Some ((sp.shape sample.Y).2,
                        keras.mk_kwargs (Some (num_bases layer)) None
                                        (Some (activation layer)) None)).
Proof.
  apply (build_model_regularizers sample.X sample.Y sample.A sample.two_layers).
  cbn. lia.
Defined.

(** C7, as stated, fails: the table of the output layer configures an
    [l2norm] strength, and the output graph convolution is built without a
    weight regularizer. *)
Lemma build_model_output_not_regularized :
  ∃ m d kw layer,
    build_model sample.X sample.Y sample.A sample.two_layers = Ok m ∧
    last (layers (config_model sample.two_layers)) = Some layer ∧
    l2norm layer = (5 # 10000)%Q ∧
    last (keras.graph_convolutions (keras.output m)) = Some (d, kw) ∧
    keras.kw_W_regularizer kw ≠ Some (keras.l2 (l2norm layer)).
Proof.
  eexists _, _, _, _. split; [reflexivity|]. split; [reflexivity|].
  split; [reflexivity|]. split; [reflexivity|]. discriminate.
Qed.

(** ** The training loop *)

Lemma range_nil (a b : Z) : (b ≤ a)%Z → range a b = [].
Proof.
  intros Hle. unfold range. replace (Z.to_nat (b - a)) with 0 by lia. done.
Qed.

Lemma range_length (a b : Z) : length (range a b) = Z.to_nat (b - a).
Proof. unfold range. by rewrite length_fmap, length_seq. Qed.

Lemma range_last (a b : Z) : (a < b)%Z → last (range a b) = Some (b - 1)%Z.
Proof.
  intros Hlt. unfold range.
  replace (Z.to_nat (b - a)) with (S (Z.to_nat (b - a - 1))) by lia.
  rewrite seq_S, fmap_app. cbn [fmap list_fmap]. rewrite last_snoc.
  f_equal. lia.
Qed.

Lemma range_cons (a b : Z) :
  (a < b)%Z → range a b = a :: range (a + 1) b.
Proof.
  intros Hlt. unfold range.
  replace (Z.to_nat (b - a)) with (S (Z.to_nat (b - (a + 1)))) by lia.
  cbn [seq fmap list_fmap]. f_equal; [lia|].
  rewrite <- fmap_S_seq, <- list_fmap_compose.
  apply list_fmap_ext. intros _ k _. cbn. lia.
Qed.

Lemma range_lookup (a b : Z) (k : nat) :
  k < Z.to_nat (b - a) → range a b !! k = Some (a + Z.of_nat k)%Z.
Proof.
  intros Hk. unfold range. rewrite list_lookup_fmap, lookup_seq_lt by done.
  done.
Qed.

Section run_facts.
Context {F node rel cls : Type} `{Float64 F}
        `{Countable node} `{Countable cls}
        `{!Collaborators F node rel cls}.

Context (model : keras.Model) (X : sp.csr_matrix) (A : list sp.csr_matrix)
        (dataset : dataset) (train_mask : list bool) (batch_size : nat).

Local Abbreviation epochs' := (epochs model X A dataset train_mask batch_size).
Local Abbreviation trained' := (trained model X A dataset train_mask batch_size).
Local Abbreviation loop_events' :=
  (loop_events model X A dataset train_mask batch_size).

(** The cadence test holds for every epoch: one epoch of the loop is its
    first branch. *)
Lemma epochs_cons (epoch : Z) (todo : list Z) (w : weights)
    (Y_hat : option (np.ndarray F)) (s : world F) :
  epochs' (epoch :: todo) w Y_hat s
  = let w' := fit model ([X] ++ A) (split_Y (train dataset)) train_mask
                batch_size w in
    let P := predict model ([X] ++ A) batch_size w' in
    let s1 := mk_world (S (ticks s)) (out s ++ [Fit] ++ [Predict]) in
    match evaluate_preds (Some P)
            [split_Y (train dataset); split_Y (val dataset)]
            [X_idx (train dataset); X_idx (val dataset)] with
    | Raise e => (Raise e, s1)
    | Ok (train_val_loss, train_val_acc) =>
        match of_option (train_val_loss !! 0) IndexError,
              of_option (train_val_acc !! 0) IndexError,
              of_option (train_val_loss !! 1) IndexError,
              of_option (train_val_acc !! 1) IndexError with
        | Ok train_loss, Ok train_acc, Ok val_loss, Ok val_acc =>
            epochs' todo w' (Some P)
              (mk_world (S (S (ticks s)))
                 (out s ++ [Fit] ++ [Predict]
                  ++ [PrintEpoch epoch train_loss train_acc val_loss val_acc
                        (fsub (clock (S (ticks s))) (clock (ticks s)))]))
        | Raise e, _, _, _ | Ok _, Raise e, _, _ | Ok _, Ok _, Raise e, _
        | Ok _, Ok _, Ok _, Raise e => (Raise e, s1)
        end
    end.
Proof.
  cbn [epochs]. rewrite bool_decide_eq_true_2 by apply Z.mod_1_r.
  unfold mbind, io_bind, time, emit, lift. cbn [ticks out].
  rewrite <- !(assoc_L (++)).
  destruct (evaluate_preds _ _ _) as [[train_val_loss train_val_acc]|e];
    [|done].
  destruct (of_option (train_val_loss !! 0) IndexError); [|done].
  destruct (of_option (train_val_acc !! 0) IndexError); [|done].
  destruct (of_option (train_val_loss !! 1) IndexError); [|done].
  destruct (of_option (train_val_acc !! 1) IndexError); [|done].
  cbn [ticks out]. by rewrite <- !(assoc_L (++)).
Qed.

(** Whatever happens, the loop prints no time-only line. *)
Lemma epochs_no_PrintTime (todo : list Z) (w : weights)
    (Y_hat : option (np.ndarray F)) (s : world F) :
  ∃ evs, out (epochs' todo w Y_hat s).2 = out s ++ evs
         ∧ Forall (λ e, is_PrintTime e = false) evs.
Proof.
  revert w Y_hat s. induction todo as [|epoch todo IH]; intros w Y_hat s.
  - exists []. cbn. by rewrite app_nil_r.
  - rewrite epochs_cons. cbn zeta.
    assert (Hstop : ∃ evs,
               out s ++ [Fit] ++ [Predict] = out s ++ evs
               ∧ Forall (λ e : event F, is_PrintTime e = false) evs).
    { eexists. split; [done|]. by repeat constructor. }
    destruct (evaluate_preds _ _ _) as [[train_val_loss train_val_acc]|e];
      [|exact Hstop].
    destruct (of_option (train_val_loss !! 0) IndexError); [|exact Hstop].
    destruct (of_option (train_val_acc !! 0) IndexError); [|exact Hstop].
    destruct (of_option (train_val_loss !! 1) IndexError); [|exact Hstop].
    destruct (of_option (train_val_acc !! 1) IndexError); [|exact Hstop].
    match goal with
    | |- ∃ evs, out (epochs' todo ?w' ?Y' ?s').2 = _ ∧ _ =>
        destruct (IH w' Y' s') as (evs & Hout & Hevs)
    end.
    rewrite Hout. cbn [out].
    eexists. split; [by rewrite <- !(assoc_L (++))|].
    repeat (apply Forall_cons; split; [done|]). exact Hevs.
Qed.

(** When the splits fit the predictions, the loop runs to its end: one
    training step, one forward pass and one progress line per epoch. *)
Lemma epochs_ok (todo : list Z) (w : weights)
    (Y_hat : option (np.ndarray F)) (s : world F) :
  evaluable model X A dataset batch_size →
  epochs' todo w Y_hat s
  = (Ok (trained' (length todo) w,
         match todo with
         | [] => Y_hat
         | _ => Some (predict model ([X] ++ A) batch_size
                        (trained' (length todo) w))
         end),
     mk_world (ticks s + 2 * length todo)
              (out s ++ loop_events' todo w (ticks s))).
Proof.
  intros Hev. revert w Y_hat s.
  induction todo as [|epoch todo IH]; intros w Y_hat s.
  - cbn. rewrite app_nil_r, Nat.add_0_r. by destruct s.
  - rewrite epochs_cons. cbn zeta.
    destruct (Hev (fit model ([X] ++ A) (split_Y (train dataset))
                     train_mask batch_size w))
      as (HP & Hc & Htrain & Hval & _).
    rewrite evaluate_preds_ok
      by (done || (apply Forall_cons_2; [done|];
                   apply Forall_cons_2; [done|]; apply Forall_nil_2)).
    cbn [zip_with lookup list_lookup of_option].
    rewrite IH. cbn [ticks out length trained loop_events].
    f_equal.
    + f_equal. by destruct todo.
    + f_equal; [lia|]. by rewrite <- !(assoc_L (++)).
Qed.

Lemma loop_events_progress (todo : list Z) (w : weights) (k : nat) :
  progress_epochs (loop_events' todo w k) = todo.
Proof.
  revert w k. induction todo as [|epoch todo IH]; intros w k; [done|].
  cbn. f_equal. apply IH.
Qed.

Lemma loop_events_no_PrintTime (todo : list Z) (w : weights) (k : nat) :
  Forall (λ e, is_PrintTime e = false) (loop_events' todo w k).
Proof.
  revert w k. induction todo as [|epoch todo IH]; intros w k;
    [constructor|].
  cbn. repeat (apply Forall_cons; split; [done|]). apply IH.
Qed.

Lemma loop_events_Predict (todo : list Z) (w : weights) (k : nat) :
  length (filter (λ e, is_Predict e = true) (loop_events' todo w k))
  = length todo.
Proof.
  revert w k. induction todo as [|epoch todo IH]; intros w k; [done|].
  cbn [loop_events app length].
  rewrite filter_cons_False by done. rewrite filter_cons_True by done.
  rewrite filter_cons_False by done. cbn. by rewrite IH.
Qed.

Lemma loop_events_length (todo : list Z) (w : weights) (k : nat) :
  length (loop_events' todo w k) = 3 * length todo.
Proof.
  revert w k. induction todo as [|epoch todo IH]; intros w k; [done|].
  cbn [loop_events app length]. rewrite IH. lia.
Qed.

(** The three events of the epoch at position [i] of the loop: a training
    step, a forward pass with the parameters after [i + 1] steps, and the
    progress line computed from that prediction and from the two readings of
    the clock in that epoch. *)
Lemma loop_events_lookup (todo : list Z) (w : weights) (k i : nat)
    (epoch : Z) :
  todo !! i = Some epoch →
  let P := predict model ([X] ++ A) batch_size (trained' (S i) w) in
  loop_events' todo w k !! (3 * i) = Some Fit ∧
  loop_events' todo w k !! (3 * i + 1) = Some Predict ∧
  loop_events' todo w k !! (3 * i + 2)
  = Some (PrintEpoch epoch
            (split_loss_of P (train dataset))
            (split_accuracy_of P (train dataset))
            (split_loss_of P (val dataset))
            (split_accuracy_of P (val dataset))
            (fsub (clock (k + 2 * i + 1)) (clock (k + 2 * i)))).
Proof.
  revert w k i. induction todo as [|e todo IH]; intros w k i Hi; [done|].
  destruct i as [|i].
  - injection Hi as ->. cbn [loop_events trained].
    replace (k + 2 * 0 + 1) with (S k) by lia.
    replace (k + 2 * 0) with k by lia. done.
  - cbn [lookup list_lookup] in Hi.
    specialize (IH (fit model ([X] ++ A) (split_Y (train dataset)) train_mask
                      batch_size w) (S (S k)) i Hi).
    cbn zeta in IH. destruct IH as (IH1 & IH2 & IH3).
    replace (3 * S i) with (S (S (S (3 * i)))) by lia.
    replace (S (S (S (3 * i))) + 1) with (S (S (S (3 * i + 1)))) by lia.
    replace (S (S (S (3 * i))) + 2) with (S (S (S (3 * i + 2)))) by lia.
    replace (k + 2 * S i + 1) with (S (S k) + 2 * i + 1) by lia.
    replace (k + 2 * S i) with (S (S k) + 2 * i) by lia.
    cbn [loop_events app lookup list_lookup trained].
    done.
Qed.

Lemma loop_events_last (todo : list Z) (w : weights) (k : nat)
    (epoch : Z) :
  last todo = Some epoch →
  ∃ train_loss train_acc val_loss val_acc time,
    last (loop_events' todo w k)
    = Some (PrintEpoch epoch train_loss train_acc val_loss val_acc time).
Proof.
  revert w k. induction todo as [|e todo IH]; intros w k Hlast; [done|].
  cbn [loop_events]. destruct todo as [|e' todo].
  - injection Hlast as ->. cbn. by eexists _, _, _, _, _.
  - rewrite last_cons_cons in Hlast.
    destruct (IH (fit model ([X] ++ A) (split_Y (train dataset)) train_mask
                    batch_size w) (S (S k)) Hlast)
      as (tl & ta & vl & va & t & Hl).
    exists tl, ta, vl, va, t. by rewrite last_app, Hl.
Qed.

End run_facts.

Lemma progress_epochs_app {F} (l1 l2 : list (event F)) :
  progress_epochs (l1 ++ l2) = progress_epochs l1 ++ progress_epochs l2.
Proof. apply omap_app. Qed.

Section run_claims.
Context {F node rel cls : Type} `{Float64 F}
        `{Countable node} `{Countable cls}
        `{!Collaborators F node rel cls}.

Implicit Types (args : Args) (config : config) (s : world F).

(** What [run] does once its prerequisites and its model are built. *)
Lemma run_built args config s A X Y X_node_map model :
  prerequisites args config = Ok (A, X, Y, X_node_map) →
  build_model X Y A config = Ok model →
  run args config s
  = let dataset := create_splits X Y X_node_map (dataset_ratio config)
                     (seed config) in
    let train_mask := sample_mask (X_idx (train dataset)) (sp.shape Y).1 in
    match epochs model X A dataset train_mask (sp.shape X).1
            (range 1 (epoch (config_model config) + 1))
            (initial_weights model) None s with
    | (Raise e, s') => (Raise e, s')
    | (Ok (_, Y_hat), s') =>
        match evaluate_preds Y_hat [split_Y (test dataset)]
                [X_idx (test dataset)] with
        | Raise e => (Raise e, s')
        | Ok (test_loss, test_acc) =>
            match of_option (test_loss !! 0) IndexError,
                  of_option (test_acc !! 0) IndexError with
            | Ok loss, Ok acc =>
                (Ok (), mk_world (ticks s') (out s' ++ [PrintTest loss acc]))
            | Raise e, _ | Ok _, Raise e => (Raise e, s')
            end
        end
    end.
Proof.
  intros Hpre Hmodel. unfold run, mbind, io_bind, lift, emit.
  rewrite Hpre, Hmodel. cbn zeta.
  destruct (epochs _ _ _ _ _ _ _ _ _ _) as [[[w Y_hat]|e] s']; [|done].
  destruct (evaluate_preds _ _ _) as [[test_loss test_acc]|e]; [|done].
  destruct (of_option (test_loss !! 0) IndexError); [|done].
  destruct (of_option (test_acc !! 0) IndexError); done.
Qed.

Lemma run_not_built args config s :
  (∃ e, prerequisites args config = Raise e
        ∧ run args config s = (Raise e, s))
  ∨ (∃ A X Y X_node_map e,
       prerequisites args config = Ok (A, X, Y, X_node_map)
       ∧ build_model X Y A config = Raise e
       ∧ run args config s = (Raise e, s))
  ∨ (∃ A X Y X_node_map model,
       prerequisites args config = Ok (A, X, Y, X_node_map)
       ∧ build_model X Y A config = Ok model).
Proof.
  destruct (prerequisites args config) as [[[[A X] Y] X_node_map]|e] eqn:Hpre.
  - destruct (build_model X Y A config) as [model|e] eqn:Hmodel.
    + right. right. by eexists _, _, _, _, _.
    + right. left. eexists _, _, _, _, _. split; [done|]. split; [done|].
      unfold run, mbind, io_bind, lift. by rewrite Hpre, Hmodel.
  - left. eexists. split; [done|].
    unfold run, mbind, io_bind, lift. by rewrite Hpre.
Qed.

Lemma run_no_PrintTime args config s :
  ∃ evs, out (run args config s).2 = out s ++ evs
         ∧ Forall (λ e, is_PrintTime e = false) evs.
Proof.
  assert (Hnil : ∃ evs, out s = out s ++ evs
                        ∧ Forall (λ e : event F, is_PrintTime e = false) evs).
  { exists []. by rewrite app_nil_r. }
  destruct (run_not_built args config s)
    as [(e & _ & ->) | [(A & X & Y & m & e & _ & _ & ->)
                       | (A & X & Y & m & model & Hpre & Hmodel)]];
    [done..|].
  rewrite (run_built _ _ _ _ _ _ _ _ Hpre Hmodel). cbn zeta.
  match goal with
  | |- context [epochs ?mo ?x ?a ?d ?tm ?b ?todo ?w ?y s] =>
      destruct (epochs_no_PrintTime mo x a d tm b todo w y s)
        as (evs & Hout & Hevs);
      destruct (epochs mo x a d tm b todo w y s) as [[[w' Y_hat]|e] s']
  end; cbn [snd] in Hout; [|by exists evs].
  destruct (evaluate_preds _ _ _) as [[test_loss test_acc]|e];
    [|by exists evs].
  destruct (of_option (test_loss !! 0) IndexError); [|by exists evs].
  destruct (of_option (test_acc !! 0) IndexError); [|by exists evs].
  cbn [snd out]. rewrite Hout. eexists.
  split; [by rewrite <- (assoc_L (++))|].
  apply Forall_app. split; [done|]. by repeat constructor.
Qed.

(** With at least one epoch and splits that fit the predictions, [run]
    returns, and its events are those of the epochs followed by the test
    line, computed from the prediction of the last epoch. *)
Lemma run_ok args config s A X Y X_node_map model :
  prerequisites args config = Ok (A, X, Y, X_node_map) →
  build_model X Y A config = Ok model →
  let dataset := create_splits X Y X_node_map (dataset_ratio config)
                   (seed config) in
  let train_mask := sample_mask (X_idx (train dataset)) (sp.shape Y).1 in
  let nepoch := epoch (config_model config) in
  let P := predict model ([X] ++ A) (sp.shape X).1
             (trained model X A dataset train_mask (sp.shape X).1
                (Z.to_nat nepoch) (initial_weights model)) in
  evaluable model X A dataset (sp.shape X).1 →
  (1 ≤ nepoch)%Z →
  run args config s
  = (Ok (),
     mk_world (ticks s + 2 * Z.to_nat nepoch)
       (out s
        ++ loop_events model X A dataset train_mask (sp.shape X).1
             (range 1 (nepoch + 1)) (initial_weights model) (ticks s)
        ++ [PrintTest (split_loss_of P (test dataset))
                      (split_accuracy_of P (test dataset))])).
Proof.
  intros Hpre Hmodel dataset train_mask nepoch P Hev Hn.
  rewrite (run_built _ _ _ _ _ _ _ _ Hpre Hmodel). cbn zeta.
  fold dataset train_mask nepoch.
  rewrite epochs_ok by done.
  assert (Hlen : length (range 1 (nepoch + 1)) = Z.to_nat nepoch).
  { rewrite range_length. lia. }
  rewrite Hlen.
  destruct (range 1 (nepoch + 1)) as [|e todo] eqn:Hrange.
  { cbn in Hlen. lia. }
  rewrite <- Hrange. fold P.
  destruct (Hev (trained model X A dataset train_mask (sp.shape X).1
                   (Z.to_nat nepoch) (initial_weights model)))
    as (HP & Hc & _ & _ & Htest).
  fold P in HP, Hc, Htest.
  rewrite evaluate_preds_ok
    by (done || (apply Forall_cons_2; [done|apply Forall_nil_2])).
  cbn [zip_with lookup list_lookup of_option ticks out].
  by rewrite <- (assoc_L (++)).
Qed.

(** C9. The cadence test [epoch % 1 == 0] holds at every epoch: [run]
    never prints a time-only line, whatever its inputs; and when its
    prerequisites and model are built, the splits fit the predictions and
    at least one epoch is configured, [run] returns having printed the
    full progress line of every epoch [1..nepoch], once each and in
    order. Its events are three per epoch and the test line; those of epoch
    [k + 1] are a training step, a forward pass and the progress line with
    the epoch number [k + 1], the train and validation loss and accuracy
    that [evaluate_preds] computes from the prediction made after [k + 1]
    training steps, and the difference of the two readings of the clock made
    in that epoch. *)
Theorem run_progress_lines args config s :
  (∃ evs, out (run args config s).2 = out s ++ evs
          ∧ Forall (λ e, is_PrintTime e = false) evs)
  ∧ ∀ A X Y X_node_map model,
      prerequisites args config = Ok (A, X, Y, X_node_map) →
      build_model X Y A config = Ok model →
      evaluable model X A
        (create_splits X Y X_node_map (dataset_ratio config) (seed config))
        (sp.shape X).1 →
      (1 ≤ epoch (config_model config))%Z →
      ∃ s' evs,
        run args config s = (Ok (), s') ∧ out s' = out s ++ evs ∧
        progress_epochs evs = range 1 (epoch (config_model config) + 1) ∧
        length evs = 3 * Z.to_nat (epoch (config_model config)) + 1 ∧
        ∀ k, k < Z.to_nat (epoch (config_model config)) →
          let dataset := create_splits X Y X_node_map (dataset_ratio config)
                           (seed config) in
          let train_mask :=
            sample_mask (X_idx (train dataset)) (sp.shape Y).1 in
          let P := predict model ([X] ++ A) (sp.shape X).1
                     (trained model X A dataset train_mask (sp.shape X).1
                        (S k) (initial_weights model)) in
          ∃ train_loss train_acc val_loss val_acc,
            evaluate_preds (Some P)
              [split_Y (train dataset); split_Y (val dataset)]
              [X_idx (train dataset); X_idx (val dataset)]
            = Ok ([train_loss; val_loss], [train_acc; val_acc]) ∧
            evs !! (3 * k) = Some Fit ∧
            evs !! (3 * k + 1) = Some Predict ∧
            evs !! (3 * k + 2)
            = Some (PrintEpoch (Z.of_nat (S k))
                      train_loss train_acc val_loss val_acc
                      (fsub (clock (ticks s + 2 * k + 1))
                            (clock (ticks s + 2 * k)))).
Proof.
  split; [apply run_no_PrintTime|].
  intros A X Y X_node_map model Hpre Hmodel Hev Hn.
  eexists _, _. split; [by eapply run_ok|]. split; [done|].
  assert (Hlen : length (range 1 (epoch (config_model config) + 1))
                 = Z.to_nat (epoch (config_model config))).
  { rewrite range_length. lia. }
  split; [|split].
  - rewrite progress_epochs_app, loop_events_progress. cbn.
    by rewrite app_nil_r.
  - rewrite length_app, loop_events_length, Hlen. cbn. lia.
  - intros k Hk dataset train_mask P.
    destruct (Hev (trained model X A dataset train_mask (sp.shape X).1
                     (S k) (initial_weights model)))
      as (HP & Hc & Htrain & Hval & _).
    fold dataset P in HP, Hc, Htrain, Hval.
    eexists _, _, _, _. split.
    { rewrite evaluate_preds_ok
        by (done || (apply Forall_cons_2; [done|];
                     apply Forall_cons_2; [done|]; apply Forall_nil_2)).
      cbn [zip_with]. reflexivity. }
    destruct (loop_events_lookup model X A dataset train_mask (sp.shape X).1
                (range 1 (epoch (config_model config) + 1))
                (initial_weights model) (ticks s) k (Z.of_nat (S k)))
      as (Hfit & Hpredict & Hline).
    { rewrite range_lookup by lia. f_equal. lia. }
    fold P in Hline.
    rewrite !lookup_app_l by (rewrite loop_events_length, Hlen; lia).
    done.
Qed.

(** C5, as the code has it. After the final epoch [run] runs no further
    forward pass: under the conditions of C9 its events are those of the
    epochs, with one forward pass per epoch and the progress line of
    epoch [nepoch] last, followed by the test line alone; the test loss and
    accuracy are those of [evaluate_preds] on the test subset applied to
    the prediction matrix computed in the final epoch. *)
Theorem run_test_evaluation args config s A X Y X_node_map model :
  prerequisites args config = Ok (A, X, Y, X_node_map) →
  build_model X Y A config = Ok model →
  let dataset := create_splits X Y X_node_map (dataset_ratio config)
                   (seed config) in
  let train_mask := sample_mask (X_idx (train dataset)) (sp.shape Y).1 in
  let nepoch := epoch (config_model config) in
  let P := predict model ([X] ++ A) (sp.shape X).1
             (trained model X A dataset train_mask (sp.shape X).1
                (Z.to_nat nepoch) (initial_weights model)) in
  evaluable model X A dataset (sp.shape X).1 →
  (1 ≤ nepoch)%Z →
  ∃ s' evs loss acc,
    run args config s = (Ok (), s') ∧
    out s' = out s ++ evs ++ [PrintTest loss acc] ∧
    length (filter (λ e, is_Predict e = true) evs) = Z.to_nat nepoch ∧
    (∃ train_loss train_acc val_loss val_acc time,
       last evs = Some (PrintEpoch nepoch train_loss train_acc
                          val_loss val_acc time)) ∧
    evaluate_preds (Some P) [split_Y (test dataset)] [X_idx (test dataset)]
    = Ok ([loss], [acc]).
Proof.
  intros Hpre Hmodel dataset train_mask nepoch P Hev Hn.
  eexists _, _, _, _. split; [by eapply run_ok|]. split; [done|].
  fold dataset train_mask nepoch P. split; [|split].
  - rewrite loop_events_Predict, range_length. lia.
  - apply loop_events_last. rewrite range_last by lia. f_equal. lia.
  - destruct (Hev (trained model X A dataset train_mask (sp.shape X).1
                     (Z.to_nat nepoch) (initial_weights model)))
      as (HP & Hc & _ & _ & Htest).
    fold P in HP, Hc, Htest.
    rewrite evaluate_preds_ok
      by (done || (apply Forall_cons_2; [done|apply Forall_nil_2])).
    done.
Qed.

(** C10. With an epoch count below 1 the loop body never runs, [Y_hat] is
    still [None] when the test evaluation subscripts it, and [run] fails
    with a [TypeError] there, having trained, predicted and printed
    nothing; so [run] prints test results only if the epoch count is at
    least 1. *)
Theorem run_needs_an_epoch args config s :
  ((epoch (config_model config) < 1)%Z →
   (∃ e, run args config s = (Raise e, s)) ∧
   ∀ A X Y X_node_map model,
     prerequisites args config = Ok (A, X, Y, X_node_map) →
     build_model X Y A config = Ok model →
     run args config s = (Raise TypeError, s))
  ∧ ∀ s', run args config s = (Ok (), s') →
          (1 ≤ epoch (config_model config))%Z.
Proof.
  assert (Hnone : (epoch (config_model config) < 1)%Z →
            ∀ A X Y X_node_map model,
              prerequisites args config = Ok (A, X, Y, X_node_map) →
              build_model X Y A config = Ok model →
              run args config s = (Raise TypeError, s)).
  { intros Hlt A X Y X_node_map model Hpre Hmodel.
    rewrite (run_built _ _ _ _ _ _ _ _ Hpre Hmodel). cbn zeta.
    rewrite range_nil by lia. done. }
  assert (Hraise : (epoch (config_model config) < 1)%Z →
            ∃ e, run args config s = (Raise e, s)).
  { intros Hlt.
    destruct (run_not_built args config s)
      as [(e & _ & ->) | [(A & X & Y & m & e & _ & _ & ->)
                         | (A & X & Y & m & model & Hpre & Hmodel)]];
      [by eexists..|].
    exists TypeError. by eapply Hnone. }
  split; [intros Hlt; split; [by apply Hraise|by apply Hnone]|].
  intros s' Hrun.
  destruct (decide (1 ≤ epoch (config_model config))%Z) as [|Hlt]; [done|].
  destruct Hraise as [e He]; [lia|]. congruence.
Qed.

End run_claims.

Lemma sample_evaluable (model : keras.Model) :
  evaluable (F := sym.t) (node := string) (rel := string) (cls := string)
    model sample.X sample.A sample.splits 3.
Proof.
  intros w. cbn.
  repeat split; repeat constructor; cbn; lia.
Qed.

Lemma learning_evaluable (model : keras.Model) :
  evaluable (F := sym.t) (node := string) (rel := string) (cls := string)
    (Collaborators0 := sample2.learning_collaborators)
    model sample.X sample.A sample.splits 3.
Proof.
  intros w. cbn. destruct (Nat.odd w);
    (repeat split; repeat constructor; cbn; lia).
Qed.

Lemma run_progress_lines_witness :
  ∃ s' evs,
    run (F := sym.t) (node := string) (rel := string) (cls := string)
      (Collaborators0 := sample2.learning_collaborators)
      (mk_Args (Some "prepared.tar"%string)) sample2.three_layers
      (mk_world 0 [])
    = (Ok (), s')
    ∧ out s' = [] ++ evs
    ∧ progress_epochs evs = range 1 (2 + 1)
    ∧ length evs = 3 * Z.to_nat 2 + 1
    ∧ ∀ k, k < Z.to_nat 2 →
        let P := predict (Collaborators := sample2.learning_collaborators)
                   sample2.model3 ([sample.X] ++ sample.A) 3
                   (trained (cls := string)
                      (Collaborators0 := sample2.learning_collaborators)
                      sample2.model3 sample.X sample.A sample.splits
                      [true; false; false] 3 (S k) 0) in
        ∃ train_loss train_acc val_loss val_acc,
          evaluate_preds (Some P) [sample.train_Y; sample.val_Y]
            [[0%Z]; [1%Z]]
          = Ok ([train_loss; val_loss], [train_acc; val_acc]) ∧
          evs !! (3 * k) = Some Fit ∧
          evs !! (3 * k + 1) = Some Predict ∧
          evs !! (3 * k + 2)
          = Some (PrintEpoch (Z.of_nat (S k))
                    train_loss train_acc val_loss val_acc
                    (sym.Sub (sym.Lit (Z.of_nat (0 + 2 * k + 1) # 1))
                             (sym.Lit (Z.of_nat (0 + 2 * k) # 1)))).
Proof.
  refine (proj2 (run_progress_lines
                   (F := sym.t) (node := string) (rel := string)
                   (cls := string)
                   (Collaborators0 := sample2.learning_collaborators)
                   (mk_Args (Some "prepared.tar"%string)) sample2.three_layers
                   (mk_world 0 []))
            sample.A sample.X sample.Y [0; 1] sample2.model3 _ _ _ _).
  - reflexivity.
  - reflexivity.
  - apply learning_evaluable.
  - cbn. lia.
Defined.

Lemma run_test_evaluation_witness :
  ∃ s' evs loss acc,
    run (F := sym.t) (node := string) (rel := string) (cls := string)
      (mk_Args (Some "prepared.tar"%string)) sample.two_layers (mk_world 0 [])
    = (Ok (), s')
    ∧ out s' = [] ++ evs ++ [PrintTest loss acc]
    ∧ length (filter (λ e, is_Predict e = true) evs) = 1
    ∧ (∃ train_loss train_acc val_loss val_acc time,
         last evs = Some (PrintEpoch 1 train_loss train_acc
                            val_loss val_acc time))
    ∧ evaluate_preds (Some sample.P) [sample.test_Y] [[2%Z]]
      = Ok ([loss], [acc]).
Proof.
  refine (run_test_evaluation
            (F := sym.t) (node := string) (rel := string) (cls := string)
            (mk_Args (Some "prepared.tar"%string)) sample.two_layers
            (mk_world 0 []) sample.A sample.X sample.Y [0; 1] sample.model
            _ _ _ _).
  - reflexivity.
  - reflexivity.
  - apply sample_evaluable.
  - cbn. lia.
Defined.

(** C5, as stated, fails: in a run of one epoch the model makes one forward
    pass, the one of that epoch; nothing but the test line follows the
    progress line of the final epoch. *)
Lemma run_no_forward_pass_after_final_epoch :
  epoch (config_model sample.two_layers) = 1%Z ∧
  out (run (F := sym.t) (node := string) (rel := string) (cls := string)
         (mk_Args None) sample.two_layers (mk_world 0 [])).2
  = [Fit; Predict;
     PrintEpoch 1
       (sym.Div (sym.Sum [sym.Neg (sym.Log (sym.Lit (7 # 10)))]) (sym.OfNat 1))
       (sym.Div (sym.OfNat 1) (sym.OfNat 1))
       (sym.Div (sym.Sum [sym.Neg (sym.Log (sym.Lit (2 # 10)))]) (sym.OfNat 1))
       (sym.Div (sym.OfNat 0) (sym.OfNat 1))
       (sym.Sub (sym.Lit (1 # 1)) (sym.Lit (0 # 1)));
     PrintTest
       (sym.Div (sym.Sum [sym.Neg (sym.Log (sym.Lit (1 # 2)))]) (sym.OfNat 1))
       (sym.Div (sym.OfNat 0) (sym.OfNat 1))].
Proof. split; [reflexivity|]. vm_compute. reflexivity. Qed.

Lemma run_needs_an_epoch_witness :
  (∃ e, run (F := sym.t) (node := string) (rel := string) (cls := string)
          (mk_Args None) sample.no_epoch (mk_world 0 [])
        = (Raise e, mk_world 0 []))
  ∧ ∀ A X Y X_node_map model,
      prerequisites (F := sym.t) (node := string) (rel := string)
        (cls := string) (mk_Args None) sample.no_epoch
      = Ok (A, X, Y, X_node_map) →
      build_model X Y A sample.no_epoch = Ok model →
      run (F := sym.t) (node := string) (rel := string) (cls := string)
        (mk_Args None) sample.no_epoch (mk_world 0 [])
      = (Raise TypeError, mk_world 0 []).
Proof.
  refine (proj1 (run_needs_an_epoch
                   (F := sym.t) (node := string) (rel := string)
                   (cls := string) (mk_Args None) sample.no_epoch
                   (mk_world 0 [])) _).
  cbn. lia.
Defined.

(** * Further properties *)

(** ** Comprehensions that may raise, continued *)

Lemma for_each_inv {A B} (f : A → result B) (l : list A) (ys : list B) :
  for_each f l = Ok ys → Forall2 (λ x y, f x = Ok y) l ys.
Proof.
  revert ys. induction l as [|x l IH]; intros ys; cbn.
  - intros [= <-]. constructor.
  - destruct (f x) as [y|e] eqn:Hx; [|done]. cbn.
    destruct (for_each f l) as [ys'|e] eqn:Hl; [|done]. cbn.
    intros [= <-]. constructor; [done|]. by apply IH.
Qed.

Lemma for_each_ext {A B} (f g : A → result B) (l : list A) :
  Forall (λ x, f x = g x) l → for_each f l = for_each g l.
Proof.
  induction 1 as [|x l Hx _ IH]; [done|]. cbn. by rewrite Hx, IH.
Qed.

(** ** The masked evaluator: errors, index conventions, composition *)

Lemma getitem_out_of_range {A} (m : np.ndarray A) (idx : list Z) :
  Exists (λ i, ¬ (- Z.of_nat (np.nrows m) ≤ i < Z.of_nat (np.nrows m))%Z) idx →
  np.getitem m idx = Raise IndexError.
Proof.
  intros Hex. unfold np.getitem.
  rewrite (for_each_some_raise _ idx IndexError); [done| |].
  - apply Forall_forall. intros i _. unfold np.normalize_index.
    repeat case_decide; cbn; try (by left);
      (destruct (np.rows m !! _); [right; by eexists|by left]).
  - eapply Exists_impl; [exact Hex|]. intros i Hi. cbn beta in *.
    unfold np.normalize_index.
    rewrite decide_False by lia. rewrite decide_False by lia. done.
Qed.

(** Indices below zero are those of the rows counted from the end. *)
Lemma getitem_mod {A} (m : np.ndarray A) (idx : list Z) :
  Forall (λ i, (- Z.of_nat (np.nrows m) ≤ i < Z.of_nat (np.nrows m))%Z) idx →
  np.getitem m idx
  = np.getitem m ((λ i, (i `mod` Z.of_nat (np.nrows m))%Z) <$> idx).
Proof.
  intros Hidx. unfold np.getitem. f_equal.
  induction Hidx as [|i idx Hi _ IH]; [done|].
  cbn [fmap list_fmap for_each]. rewrite IH. f_equal.
  unfold np.normalize_index.
  assert (0 ≤ i `mod` Z.of_nat (np.nrows m) < Z.of_nat (np.nrows m))%Z
    by (apply Z.mod_pos_bound; lia).
  rewrite (decide_True (P := (0 ≤ i `mod` _ < _)%Z)) by done.
  destruct (decide (0 ≤ i < Z.of_nat (np.nrows m))%Z) as [Hpos|Hneg].
  - by rewrite Z.mod_small.
  - rewrite decide_True by lia.
    replace (i `mod` Z.of_nat (np.nrows m))%Z
      with (Z.of_nat (np.nrows m) + i)%Z; [done|].
    apply Z.mod_unique_pos with (-1)%Z; lia.
Qed.

Section evaluator_more.
Context {F : Type} `{Float64 F}.

Implicit Types (preds : option (np.ndarray F)) (P : np.ndarray F)
               (L : np.ndarray Z).

Lemma evaluate_loop_cons preds L (idx : list Z)
    (pairs : list (np.ndarray Z * list Z)) (split_loss split_acc : list F) :
  evaluate_loop preds ((L, idx) :: pairs) split_loss split_acc
  = (p ← subscript preds idx;
     y ← np.getitem L idx;
     loss ← categorical_crossentropy p y;
     p' ← subscript preds idx;
     y' ← np.getitem L idx;
     acc ← accuracy p' y';
     evaluate_loop preds pairs (split_loss ++ [loss]) (split_acc ++ [acc])).
Proof. done. Qed.

(** The two lists the loop starts with are only prefixed to its result. *)
Lemma evaluate_loop_acc preds (pairs : list (np.ndarray Z * list Z))
    (split_loss split_acc : list F) :
  evaluate_loop preds pairs split_loss split_acc
  = ('(x, y) ← evaluate_loop preds pairs [] [];
     Ok (split_loss ++ x, split_acc ++ y)).
Proof.
  revert split_loss split_acc.
  induction pairs as [|[L idx] pairs IH]; intros split_loss split_acc.
  - cbn. by rewrite !app_nil_r.
  - rewrite !evaluate_loop_cons.
    destruct (subscript preds idx) as [p|e]; [|done]. rewrite !bind_Ok.
    destruct (np.getitem L idx) as [y|e]; [|done]. rewrite !bind_Ok.
    destruct (categorical_crossentropy p y) as [loss|e]; [|done].
    rewrite !bind_Ok.
    destruct (accuracy p y) as [acc|e]; [|done]. rewrite !bind_Ok.
    rewrite (IH (split_loss ++ [loss])), (IH ([] ++ [loss])).
    destruct (evaluate_loop preds pairs [] []) as [[x y']|e]; [|done].
    rewrite !bind_Ok. cbn. by rewrite <- !(assoc_L (++)).
Qed.

Lemma evaluate_loop_app preds (pairs1 pairs2 : list (np.ndarray Z * list Z))
    (split_loss split_acc : list F) :
  evaluate_loop preds (pairs1 ++ pairs2) split_loss split_acc
  = ('(x, y) ← evaluate_loop preds pairs1 split_loss split_acc;
     evaluate_loop preds pairs2 x y).
Proof.
  revert split_loss split_acc.
  induction pairs1 as [|[L idx] pairs1 IH]; intros split_loss split_acc;
    [done|].
  rewrite <- app_comm_cons, !evaluate_loop_cons.
  destruct (subscript preds idx) as [p|e]; [|done]. rewrite !bind_Ok.
  destruct (np.getitem L idx) as [y|e]; [|done]. rewrite !bind_Ok.
  destruct (categorical_crossentropy p y) as [loss|e]; [|done].
  rewrite !bind_Ok.
  destruct (accuracy p y) as [acc|e]; [|done]. rewrite !bind_Ok.
  apply IH.
Qed.

(** X1. Evaluating two lists of (label, subset) pairs one after the other is
    evaluating their concatenation: the losses and the accuracies are
    concatenated, and the first failure, if any, is the failure of the
    whole. *)
Theorem evaluate_preds_app preds (labels1 labels2 : list (np.ndarray Z))
    (indices1 indices2 : list (list Z)) :
  length labels1 = length indices1 →
  evaluate_preds preds (labels1 ++ labels2) (indices1 ++ indices2)
  = ('(loss1, acc1) ← evaluate_preds preds labels1 indices1;
     '(loss2, acc2) ← evaluate_preds preds labels2 indices2;
     Ok (loss1 ++ loss2, acc1 ++ acc2)).
Proof.
  intros Hlen. unfold evaluate_preds.
  rewrite zip_with_app by done. rewrite evaluate_loop_app.
  destruct (evaluate_loop preds (zip labels1 indices1) [] [])
    as [[loss1 acc1]|e]; [|done].
  rewrite !bind_Ok. cbn. apply evaluate_loop_acc.
Qed.

Lemma zip_take_lengths {A B} (l : list A) (k : list B) :
  zip l k = zip (take (length k) l) (take (length l) k).
Proof.
  revert k. induction l as [|x l IH]; intros [|y k]; cbn; [done..|].
  by rewrite <- IH.
Qed.

(** X2. The two lists are paired by [zip]: the labels without an index
    subset and the index subsets without a label matrix are ignored, and a
    difference in length is no error. *)
Theorem evaluate_preds_unpaired preds (labels : list (np.ndarray Z))
    (indices : list (list Z)) :
  evaluate_preds preds labels indices
  = evaluate_preds preds (take (length indices) labels)
                         (take (length labels) indices).
Proof. unfold evaluate_preds. by rewrite <- zip_take_lengths. Qed.

(** Of two pairs, the first fits the predictions and the subset of the
    second names a row that the predictions do not have. *)
Lemma evaluate_preds_second_index_error P L1 L2 (idx1 idx2 : list Z) :
  np.wf P → 0 < np.ncols P →
  fits P (L1, idx1) →
  Exists (λ i, ¬ (- Z.of_nat (np.nrows P) ≤ i < Z.of_nat (np.nrows P))%Z)
    idx2 →
  evaluate_preds (Some P) [L1; L2] [idx1; idx2] = Raise IndexError.
Proof.
  intros HP Hc Hfits Hex. unfold evaluate_preds.
  change (zip [L1; L2] [idx1; idx2]) with ([(L1, idx1)] ++ [(L2, idx2)]).
  rewrite evaluate_loop_app.
  rewrite evaluate_loop_ok
    by (done || (apply Forall_cons_2; [done|apply Forall_nil_2])).
  rewrite bind_Ok. rewrite evaluate_loop_cons. cbn [subscript].
  by rewrite (getitem_out_of_range P idx2 Hex).
Qed.

(** X3. An index outside [-N, N) in the subset of a pair makes
    [evaluate_preds] fail with an [IndexError] when the pairs before it are
    evaluated without failure; nothing is returned for the earlier pairs. *)
Theorem evaluate_preds_index_error P (labels1 labels2 : list (np.ndarray Z))
    (indices1 indices2 : list (list Z)) L (idx : list Z) :
  np.wf P → 0 < np.ncols P →
  length labels1 = length indices1 →
  Forall (fits P) (zip labels1 indices1) →
  Exists (λ i, ¬ (- Z.of_nat (np.nrows P) ≤ i < Z.of_nat (np.nrows P))%Z) idx →
  evaluate_preds (Some P) (labels1 ++ L :: labels2)
                          (indices1 ++ idx :: indices2)
  = Raise IndexError.
Proof.
  intros HP Hc Hlen Hfits Hex. unfold evaluate_preds.
  rewrite zip_with_app by done. rewrite evaluate_loop_app.
  rewrite evaluate_loop_ok by done. rewrite bind_Ok. cbn [zip_with].
  rewrite evaluate_loop_cons. cbn [subscript].
  by rewrite (getitem_out_of_range P idx Hex).
Qed.

Lemma evaluate_loop_mod P (pairs : list (np.ndarray Z * list Z))
    (split_loss split_acc : list F) :
  Forall (λ pair : np.ndarray Z * list Z,
            np.nrows pair.1 = np.nrows P
            ∧ Forall (λ i, (- Z.of_nat (np.nrows P) ≤ i
                            < Z.of_nat (np.nrows P))%Z) pair.2) pairs →
  evaluate_loop (Some P) pairs split_loss split_acc
  = evaluate_loop (Some P)
      ((λ pair : np.ndarray Z * list Z,
          (pair.1, (λ i, (i `mod` Z.of_nat (np.nrows P))%Z) <$> pair.2))
       <$> pairs) split_loss split_acc.
Proof.
  intros Hpairs. revert split_loss split_acc.
  induction Hpairs as [|[L idx] pairs [HL Hidx] _ IH];
    intros split_loss split_acc; [done|].
  cbn [fmap list_fmap fst snd] in *. rewrite !evaluate_loop_cons.
  cbn [subscript].
  rewrite <- (getitem_mod P idx) by done.
  pose proof (getitem_mod L idx) as HLmod. rewrite HL in HLmod.
  rewrite <- (HLmod Hidx).
  destruct (np.getitem P idx) as [p|e]; [|done]. rewrite !bind_Ok.
  destruct (np.getitem L idx) as [y|e]; [|done]. rewrite !bind_Ok.
  destruct (categorical_crossentropy p y) as [loss|e]; [|done].
  rewrite !bind_Ok.
  destruct (accuracy p y) as [acc|e]; [|done]. rewrite !bind_Ok.
  apply IH.
Qed.

(** X4. Negative indices are accepted and count rows from the end: on label
    matrices with the [N] rows of the prediction matrix and index subsets
    inside [-N, N), [evaluate_preds] gives what it gives when every index
    [i] is replaced by [i mod N]. *)
Theorem evaluate_preds_negative_indices P (labels : list (np.ndarray Z))
    (indices : list (list Z)) :
  Forall (λ L, np.nrows L = np.nrows P) labels →
  Forall (Forall (λ i, (- Z.of_nat (np.nrows P) ≤ i
                        < Z.of_nat (np.nrows P))%Z)) indices →
  evaluate_preds (Some P) labels indices
  = evaluate_preds (Some P) labels
      ((λ idx : list Z, (λ i, (i `mod` Z.of_nat (np.nrows P))%Z) <$> idx)
       <$> indices).
Proof.
  intros HL Hidx. unfold evaluate_preds.
  rewrite evaluate_loop_mod.
  - f_equal. clear. revert indices.
    induction labels as [|L labels IH]; intros [|idx indices]; cbn; [done..|].
    by rewrite IH.
  - clear -HL Hidx. revert indices Hidx.
    induction HL as [|L labels HLn _ IH]; intros indices Hidx; [constructor|].
    destruct Hidx as [|idx indices Hi Hidx]; [constructor|].
    cbn. constructor; [done|]. by apply IH.
Qed.

End evaluator_more.

(** ** The masked evaluator: unlabelled rows, label values, subset order *)

Lemma zip_with_fmap_same {A B C D} (h : B → C → D) (f : A → B) (g : A → C)
    (s : list A) :
  zip_with h (f <$> s) (g <$> s) = (λ i, h (f i) (g i)) <$> s.
Proof. induction s as [|i s IH]; [done|]. cbn. by rewrite IH. Qed.

Lemma select_zeros {A} (l : list Z) (p : list A) :
  Forall (λ y, y = 0%Z) l → select l p = [].
Proof.
  intros Hl. revert p. induction Hl as [|x l -> _ IH]; intros [|y p]; try done.
  cbn. apply IH.
Qed.

Lemma Forall2_concat_rows {A B} (R : A → B → Prop) (ls : list (list A))
    (ks : list (list B)) :
  Forall2 (Forall2 R) ls ks → Forall2 R (concat ls) (concat ks).
Proof.
  induction 1 as [|l k ls ks Hlk _ IH]; [constructor|].
  cbn. by apply Forall2_app.
Qed.

Lemma nonzero_from_pattern (k : nat) (l l' : list Z) :
  Forall2 (λ x y, x = 0%Z ↔ y = 0%Z) l l' →
  np.nonzero_from k l = np.nonzero_from k l'.
Proof.
  intros Hl. revert k. induction Hl as [|x y l l' Hxy _ IH]; intros k; [done|].
  cbn. rewrite (IH (S k)).
  destruct (decide (x = 0%Z)) as [Hx|Hx], (decide (y = 0%Z)) as [Hy|Hy];
    tauto || done.
Qed.

Lemma argmax_int_loop_bound (mp : Z) (max_ind i : nat) (ip : list Z) :
  Forall (λ x, (x ≤ mp)%Z) ip → np.argmax_int_loop mp max_ind i ip = max_ind.
Proof.
  intros Hip. revert i. induction Hip as [|x ip Hx _ IH]; intros i; [done|].
  cbn. rewrite decide_False by lia. apply IH.
Qed.

Lemma argmax_int_zeros (l : list Z) :
  l ≠ [] → Forall (λ y, y = 0%Z) l → np.argmax_int l = Ok 0.
Proof.
  intros Hne Hl. destruct Hl as [|x l -> Hl]; [done|]. cbn. f_equal.
  apply argmax_int_loop_bound. eapply Forall_impl; [exact Hl|].
  cbn. intros y ->. done.
Qed.

Section evaluator_rows.
Context {F : Type} `{Float64 F}.

Implicit Types (P : np.ndarray F) (L : np.ndarray Z).

Lemma extracted_loss_rows P L (subset : list nat) :
  extracted_loss P L subset
  = np.mean ((λ x, fneg (flog x)) <$>
             concat ((λ i, select (default [] (np.rows L !! i))
                                  (default [] (np.rows P !! i))) <$> subset)).
Proof. unfold extracted_loss, slice. cbn. by rewrite zip_with_fmap_same. Qed.

(** X5. The loss depends on the label matrix only through which of its
    entries are zero: [categorical_crossentropy] selects the predictions at
    every non-zero label, whatever its value. *)
Theorem categorical_crossentropy_nonzero_labels P L (L' : np.ndarray Z) :
  Forall2 (Forall2 (λ x y, x = 0%Z ↔ y = 0%Z)) (np.rows L) (np.rows L') →
  categorical_crossentropy P L = categorical_crossentropy P L'.
Proof.
  intros Hrows. unfold categorical_crossentropy, np.extract, np.nonzero.
  rewrite (nonzero_from_pattern 0 (np.ravel L) (np.ravel L')); [done|].
  unfold np.ravel. by apply Forall2_concat_rows.
Qed.

(** X6. A row whose labels are all zero adds nothing to the loss: with or
    without its index in the subset, [evaluate_preds] returns the same
    loss. *)
Theorem evaluate_preds_loss_unlabelled P L (idx1 idx2 : list Z) (i : Z) :
  np.wf P → 0 < np.ncols P →
  fits P (L, idx1 ++ [i] ++ idx2) →
  Forall (λ y, y = 0%Z) (default [] (np.rows L !! Z.to_nat i)) →
  ∃ loss acc acc',
    evaluate_preds (Some P) [L] [idx1 ++ [i] ++ idx2] = Ok ([loss], [acc])
    ∧ evaluate_preds (Some P) [L] [idx1 ++ idx2] = Ok ([loss], [acc']).
Proof.
  intros HP Hc (HL & Hshape & Hidx) Hrow. cbn [fst snd] in *.
  assert (Hidx' : in_range (np.nrows P) (idx1 ++ idx2)).
  { unfold in_range in *. rewrite !Forall_app in Hidx.
    rewrite Forall_app. tauto. }
  eexists _, _, _. split.
  - rewrite evaluate_preds_ok
      by (done || (apply Forall_cons_2; [done|apply Forall_nil_2])).
    reflexivity.
  - rewrite evaluate_preds_ok
      by (done || (apply Forall_cons_2; [done|apply Forall_nil_2])).
    cbn [zip_with]. do 3 f_equal.
    rewrite !extracted_loss_rows. do 2 f_equal.
    rewrite !fmap_app, !concat_app. cbn [fmap list_fmap concat].
    rewrite select_zeros by done. done.
Qed.

(** X7. A row whose labels are all zero is counted by the accuracy like any
    other row, with label class 0, the argmax of a row of zeros: alone in a
    subset it gives accuracy 1/1 when the prediction row has its maximum in
    column 0 and 0/1 otherwise. *)
Theorem evaluate_preds_accuracy_unlabelled P L (i : Z) :
  np.wf P → 0 < np.ncols P →
  fits P (L, [i]) →
  Forall (λ y, y = 0%Z) (default [] (np.rows L !! Z.to_nat i)) →
  ∃ loss p a,
    np.rows P !! Z.to_nat i = Some p ∧ np.argmax_float p = Ok a ∧
    evaluate_preds (Some P) [L] [[i]]
    = Ok ([loss], [fdiv (of_nat (if decide (a = 0) then 1 else 0))
                        (of_nat 1)]).
Proof.
  intros HP Hc (HL & Hshape & Hidx) Hrow. cbn [fst snd] in *.
  injection Hshape as Hn Hcols.
  apply Forall_cons in Hidx as [Hi _].
  destruct (row_length P (Z.to_nat i) HP) as (p & Hp & Hlp); [lia|].
  destruct (row_length L (Z.to_nat i) HL) as (l & Hl & Hll); [lia|].
  rewrite Hl in Hrow. cbn in Hrow.
  destruct p as [|x p]; [cbn in Hlp; lia|].
  assert (Hl0 : np.argmax_int l = Ok 0).
  { apply argmax_int_zeros; [|done]. intros ->. cbn in Hll. lia. }
  assert (Hfits : Forall (fits P) (zip [L] [[i]])).
  { apply Forall_cons_2; [|apply Forall_nil_2].
    split; [done|]. split; [cbn [fst]; unfold np.shape; congruence|].
    by apply Forall_cons_2. }
  eexists _, (x :: p), _. split; [done|]. split; [reflexivity|].
  rewrite (evaluate_preds_ok P [L] [[i]] HP Hc Hfits).
  cbn [zip_with]. do 3 f_equal.
  unfold masked_accuracy. cbn [fmap list_fmap length]. do 2 f_equal.
  assert (Hhit : hit P L (Z.to_nat i)
                 = (0 =? (if fisnan x then 0
                          else np.argmax_float_loop x 0 1 p))).
  { unfold hit. rewrite Hp, Hl, Hl0. done. }
  rewrite filter_cons, filter_nil.
  destruct (decide (hit P L (Z.to_nat i) = true)) as [Hh|Hh];
    rewrite Hhit in Hh.
  - apply Nat.eqb_eq in Hh. rewrite <- Hh. done.
  - apply not_true_is_false, Nat.eqb_neq in Hh.
    rewrite decide_False by done. done.
Qed.

(** X8. The accuracy of a subset does not depend on the order of its
    indices. *)
Theorem evaluate_preds_accuracy_order P L (idx idx' : list Z) :
  np.wf P → 0 < np.ncols P →
  fits P (L, idx) → idx ≡ₚ idx' →
  ∃ loss loss' acc,
    evaluate_preds (Some P) [L] [idx] = Ok ([loss], [acc])
    ∧ evaluate_preds (Some P) [L] [idx'] = Ok ([loss'], [acc]).
Proof.
  intros HP Hc (HL & Hshape & Hidx) Hperm. cbn [fst snd] in *.
  assert (Hidx' : in_range (np.nrows P) idx').
  { unfold in_range in *. by rewrite <- Hperm. }
  eexists _, _, _. split.
  - rewrite evaluate_preds_ok
      by (done || (apply Forall_cons_2; [done|apply Forall_nil_2])).
    reflexivity.
  - rewrite evaluate_preds_ok
      by (done || (apply Forall_cons_2; [done|apply Forall_nil_2])).
    cbn [zip_with]. do 3 f_equal.
    unfold masked_accuracy.
    assert (Hp : Z.to_nat <$> idx' ≡ₚ Z.to_nat <$> idx)
      by by rewrite Hperm.
    f_equal; f_equal.
    + apply Permutation_length. by rewrite Hp.
    + apply Permutation_length. by rewrite Hp.
Qed.

End evaluator_rows.

(** ** Dictionaries built from any enumeration *)

Section dict_more.
Context `{Countable K}.

(** A key is mapped to the last position at which it occurs. *)
Lemma dict_of_enumerate_last (l : list K) (x : K) (i : nat) :
  dict_of (enumerate 0 l) !! x = Some i →
  l !! i = Some x ∧ ∀ j, i < j → l !! j ≠ Some x.
Proof.
  revert i. induction l as [|y l IH] using rev_ind; intros i.
  - unfold dict_of; cbn. by rewrite lookup_empty.
  - rewrite enumerate_snoc, dict_of_snoc. cbn [fst snd].
    destruct (decide (x = y)) as [->|Hne].
    + rewrite lookup_insert_eq. intros [= <-]. split.
      * by rewrite list_lookup_middle.
      * intros j Hj. rewrite lookup_ge_None_2; [done|].
        rewrite length_app. cbn. lia.
    + rewrite lookup_insert_ne by done. intros Hi.
      destruct (IH i Hi) as [Hl Hlast].
      apply lookup_lt_Some in Hl as Hlt. split.
      * by rewrite lookup_app_l.
      * intros j Hj. destruct (decide (j < length l)) as [Hjl|Hjl].
        -- rewrite lookup_app_l by done. by apply Hlast.
        -- destruct (decide (j = length l)) as [->|Hjn].
           ++ rewrite list_lookup_middle by done. congruence.
           ++ rewrite lookup_ge_None_2; [done|].
              rewrite length_app. cbn. lia.
Qed.

Lemma dict_of_enumerate_is_Some (l : list K) (x : K) :
  is_Some (dict_of (enumerate 0 l) !! x) ↔ x ∈ l.
Proof.
  induction l as [|y l IH] using rev_ind.
  - unfold dict_of; cbn. rewrite lookup_empty, elem_of_nil.
    split; [by intros [? ?]|done].
  - rewrite enumerate_snoc, dict_of_snoc. cbn [fst snd].
    rewrite elem_of_app, list_elem_of_singleton.
    destruct (decide (x = y)) as [->|Hne].
    + rewrite lookup_insert_eq. split; [by right|by eexists].
    + rewrite lookup_insert_ne by done. rewrite IH. tauto.
Qed.

Lemma dict_of_enumerate_size (l : list K) :
  size (dict_of (enumerate 0 l)) ≤ length l.
Proof.
  induction l as [|y l IH] using rev_ind; [done|].
  rewrite enumerate_snoc, dict_of_snoc, length_app. cbn [fst snd length].
  rewrite map_size_insert. destruct (_ !! y); cbn; lia.
Qed.

End dict_more.

(** ** Sparse matrices built from coordinates, continued *)

Lemma from_coo_inv (values : list Z) (row col : list nat) (shape : nat * nat)
    (Y : sp.csr_matrix) :
  sp.from_coo values row col shape = Ok Y →
  Forall (λ i, i < shape.1) row ∧ Forall (λ j, j < shape.2) col ∧
  Y = sp.mk_csr sp.int32 shape
        (foldl sp.add_entry ∅ (zip (zip row col) values)).
Proof.
  unfold sp.from_coo.
  destruct (bool_decide (length row = length values
                         ∧ length col = length values)); [|done]. cbn [negb].
  destruct (bool_decide (Exists (λ i, shape.1 ≤ i) row)) eqn:Hrow; [done|].
  destruct (bool_decide (Exists (λ j, shape.2 ≤ j) col)) eqn:Hcol; [done|].
  apply bool_decide_eq_false, Forall_Exists_neg in Hrow, Hcol.
  intros [= <-]. split; [|split; [|done]].
  - eapply Forall_impl; [exact Hrow|]. cbn. lia.
  - eapply Forall_impl; [exact Hcol|]. cbn. lia.
Qed.

Lemma from_coo_raises (values : list Z) (row col : list nat)
    (shape : nat * nat) (e : exn) :
  sp.from_coo values row col shape = Raise e → e = ValueError.
Proof.
  unfold sp.from_coo. repeat case_match; congruence.
Qed.

Lemma wrap32_small (z : Z) :
  (- 2 ^ 31 ≤ z < 2 ^ 31)%Z → sp.wrap32 z = z.
Proof. intros Hz. unfold sp.wrap32. rewrite Z.mod_small; lia. Qed.

(** Below [2^31] coordinates, the entry stored at a position is the number
    of times the position is given. *)
Lemma foldl_add_entry_count (pairs : list (nat * nat))
    (d : gmap (nat * nat) Z) (q : nat * nat) :
  (0 ≤ default 0 (d !! q))%Z →
  (default 0 (d !! q) + Z.of_nat (length pairs) < 2 ^ 31)%Z →
  default 0%Z (foldl sp.add_entry d ((λ p, (p, 1%Z)) <$> pairs) !! q)
  = (default 0 (d !! q)
     + Z.of_nat (length (filter (λ p, p = q) pairs)))%Z.
Proof.
  revert d. induction pairs as [|[i j] pairs IH]; intros d Hpos Hlt.
  - cbn. lia.
  - cbn [fmap list_fmap foldl sp.add_entry length] in *.
    rewrite filter_cons. destruct (decide ((i, j) = q)) as [<-|Hne].
    + assert (Hd : default 0%Z
                     (<[(i, j) := sp.wrap32 (default 0%Z (d !! (i, j)) + 1)]> d
                      !! (i, j))
                   = (default 0 (d !! (i, j)) + 1)%Z).
      { rewrite lookup_insert_eq. cbn [default]. apply wrap32_small. lia. }
      rewrite IH; rewrite Hd; cbn [length]; lia.
    + assert (Hd : <[(i, j) := sp.wrap32 (default 0%Z (d !! (i, j)) + 1)]> d
                   !! q = d !! q) by by rewrite lookup_insert_ne.
      rewrite IH; rewrite Hd; lia.
Qed.

Lemma foldl_add_entry_dom (pairs : list (nat * nat))
    (d : gmap (nat * nat) Z) (q : nat * nat) :
  is_Some (foldl sp.add_entry d ((λ p, (p, 1%Z)) <$> pairs) !! q) →
  is_Some (d !! q) ∨ q ∈ pairs.
Proof.
  revert d. induction pairs as [|[i j] pairs IH]; intros d Hq; [by left|].
  cbn [fmap list_fmap foldl sp.add_entry] in Hq.
  destruct (IH _ Hq) as [Hd|Hin].
  - destruct (decide ((i, j) = q)) as [<-|Hne].
    + right. apply list_elem_of_here.
    + left. by rewrite lookup_insert_ne in Hd.
  - right. by apply list_elem_of_further.
Qed.

(** ** The dataset builder: outcomes, indices, counts *)

Section dataset_more.
Context {node rel cls : Type} `{Countable node} `{Countable cls}.

Implicit Types (kg : KnowledgeGraph node)
               (targets : list (triple node rel cls)).

Lemma target_labels_known kg targets :
  Forall (λ t, t.1.1 ∈ atoms kg) targets →
  for_each (λ t : triple node rel cls,
      let '(x, _, y) := t in
      r ← of_option (make_nodes_map kg !! x) KeyError;
      c ← of_option (make_classes_map targets !! y) KeyError;
      Ok (r, c)) targets
  = Ok (coordinates kg targets <$> targets).
Proof.
  intros Hin. apply for_each_ok.
  rewrite Forall_forall in Hin. apply Forall_forall.
  intros [[x r] y] Ht. unfold coordinates. cbn.
  destruct (proj2 (dict_of_enumerate_is_Some (atoms kg) x) (Hin _ Ht))
    as [i Hi].
  unfold make_nodes_map. rewrite Hi.
  destruct (classes_map_lookup targets _ Ht) as (j & Hj & _).
  cbn in Hj. rewrite Hj. done.
Qed.

Lemma target_labels_unknown kg targets :
  Exists (λ t, t.1.1 ∉ atoms kg) targets →
  for_each (λ t : triple node rel cls,
      let '(x, _, y) := t in
      r ← of_option (make_nodes_map kg !! x) KeyError;
      c ← of_option (make_classes_map targets !! y) KeyError;
      Ok (r, c)) targets
  = Raise KeyError.
Proof.
  intros Hex. apply for_each_some_raise.
  - apply Forall_forall. intros [[x r] y] _.
    destruct (make_nodes_map kg !! x) as [i|]; [|by left]. cbn.
    destruct (make_classes_map targets !! y) as [j|]; [|by left].
    right. by eexists.
  - eapply Exists_impl; [exact Hex|]. intros [[x r] y] Hx. cbn in *.
    destruct (make_nodes_map kg !! x) as [i|] eqn:Hi; [|done].
    exfalso. apply Hx. apply dict_of_enumerate_is_Some. by eexists.
Qed.

(** What a returned result is made of. *)
Lemma build_dataset_inv kg targets (X Y : sp.csr_matrix)
    (X_node_idx : list nat) :
  build_dataset kg targets = Ok (X, Y, X_node_idx) →
  targets ≠ [] ∧ Forall (λ t, t.1.1 ∈ atoms kg) targets ∧
  Forall (λ p, p.1 < size (make_nodes_map kg)
               ∧ p.2 < size (make_classes_map targets))
    (coordinates kg targets <$> targets) ∧
  X = sp.empty (size (make_nodes_map kg), size (make_nodes_map kg)) ∧
  Y = sp.mk_csr sp.int32
        (size (make_nodes_map kg), size (make_classes_map targets))
        (foldl sp.add_entry ∅
           ((λ p, (p, 1%Z)) <$> (coordinates kg targets <$> targets))) ∧
  X_node_idx = fst <$> (coordinates kg targets <$> targets).
Proof.
  intros Hret.
  destruct (decide (Exists (λ t, t.1.1 ∉ atoms kg) targets)) as [Hex|Hall].
  { unfold build_dataset in Hret.
    by rewrite (target_labels_unknown kg targets Hex) in Hret. }
  assert (Hin : Forall (λ t, t.1.1 ∈ atoms kg) targets).
  { apply Forall_forall. intros t Ht.
    destruct (decide (t.1.1 ∈ atoms kg)) as [|Hnot]; [done|].
    exfalso. apply Hall, Exists_exists. by exists t. }
  unfold build_dataset in Hret.
  rewrite (target_labels_known kg targets Hin), bind_Ok in Hret.
  unfold unzip_labels in Hret.
  destruct (coordinates kg targets <$> targets) as [|p ps] eqn:Hps; [done|].
  rewrite bind_Ok in Hret. rewrite <- Hps in Hret |- *.
  destruct (sp.from_coo _ _ _ _) as [Y'|e] eqn:Hcoo; [|done].
  rewrite bind_Ok in Hret. injection Hret as <- <- <-.
  apply from_coo_inv in Hcoo as (Hrows & Hcols & ->).
  rewrite zip_fst_snd, zip_ones.
  split; [intros ->; done|]. split; [done|]. split; [|done].
  rewrite Forall_fmap in Hrows, Hcols. apply Forall_fmap.
  apply Forall_forall. intros t Ht.
  rewrite Forall_forall in Hrows, Hcols.
  split; [apply (Hrows (coordinates kg targets t))
         |apply (Hcols (coordinates kg targets t))];
    by apply list_elem_of_fmap_2.
Qed.

(** X9. [build_dataset] fails with a [KeyError] exactly when some target
    statement names a node that is not among the atoms of the graph. *)
Theorem build_dataset_KeyError kg targets :
  build_dataset kg targets = Raise KeyError
  ↔ Exists (λ t, t.1.1 ∉ atoms kg) targets.
Proof.
  split.
  - intros Hraise.
    destruct (decide (Exists (λ t, t.1.1 ∉ atoms kg) targets)) as [|Hall];
      [done|exfalso].
    assert (Hin : Forall (λ t, t.1.1 ∈ atoms kg) targets).
    { apply Forall_forall. intros t Ht.
      destruct (decide (t.1.1 ∈ atoms kg)) as [|Hnot]; [done|].
      exfalso. apply Hall, Exists_exists. by exists t. }
    unfold build_dataset in Hraise.
    rewrite (target_labels_known kg targets Hin), bind_Ok in Hraise.
    unfold unzip_labels in Hraise.
    destruct (coordinates kg targets <$> targets) as [|p ps]; [done|].
    rewrite bind_Ok in Hraise.
    destruct (sp.from_coo _ _ _ _) as [Y'|e] eqn:Hcoo; [done|].
    apply from_coo_raises in Hcoo as ->. done.
  - intros Hex. unfold build_dataset.
    by rewrite (target_labels_unknown kg targets Hex).
Qed.

(** X10. On a graph whose atoms are enumerated without repetition,
    [build_dataset] fails with a [ValueError] exactly on the empty target
    list, and returns exactly on a non-empty list whose nodes are all atoms
    of the graph. *)
Theorem build_dataset_outcome kg targets :
  NoDup (atoms kg) →
  (build_dataset kg targets = Raise ValueError ↔ targets = []) ∧
  ((∃ r, build_dataset kg targets = Ok r)
   ↔ targets ≠ [] ∧ Forall (λ t, t.1.1 ∈ atoms kg) targets).
Proof.
  intros Hnd. split; split.
  - intros Hraise. destruct targets as [|t targets]; [done|exfalso].
    destruct (decide (Exists (λ t, t.1.1 ∉ atoms kg) (t :: targets)))
      as [Hex|Hall].
    + unfold build_dataset in Hraise.
      by rewrite (target_labels_unknown kg _ Hex) in Hraise.
    + assert (Hin : Forall (λ t, t.1.1 ∈ atoms kg) (t :: targets)).
      { apply Forall_forall. intros t' Ht.
        destruct (decide (t'.1.1 ∈ atoms kg)) as [|Hnot]; [done|].
        exfalso. apply Hall, Exists_exists. by exists t'. }
      by rewrite build_dataset_ok in Hraise.
  - intros ->. reflexivity.
  - intros [[[X Y] idx] Hret].
    destruct (build_dataset_inv _ _ _ _ _ Hret) as (Hne & Hin & _). done.
  - intros [Hne Hin]. eexists. by apply build_dataset_ok.
Qed.

(** X11. Whenever [build_dataset] returns, the node indices it returns are
    those of the target statements, in order: the [k]-th index is the value
    of [nodes_map] at the node of the [k]-th statement, and the atom
    enumerated at that position is that node. *)
Theorem build_dataset_node_index kg targets (X Y : sp.csr_matrix)
    (X_node_idx : list nat) :
  build_dataset kg targets = Ok (X, Y, X_node_idx) →
  length X_node_idx = length targets ∧
  ∀ k t, targets !! k = Some t →
    ∃ i, X_node_idx !! k = Some i ∧
         make_nodes_map kg !! t.1.1 = Some i ∧
         atoms kg !! i = Some t.1.1.
Proof.
  intros Hret.
  destruct (build_dataset_inv _ _ _ _ _ Hret) as (_ & Hin & _ & _ & _ & ->).
  split; [by rewrite !length_fmap|].
  intros k t Hk. rewrite !list_lookup_fmap, Hk. cbn.
  rewrite Forall_lookup in Hin.
  destruct (proj2 (dict_of_enumerate_is_Some (atoms kg) t.1.1)
              (Hin k t Hk)) as [i Hi].
  exists i. unfold make_nodes_map. rewrite Hi. split; [done|].
  split; [done|]. by apply dict_of_enumerate_last in Hi as [? _].
Qed.

(** X12. Whenever [build_dataset] returns on fewer than [2^31] target
    statements, the entry of [Y] at a row and a column is the number of
    target statements whose node has that row and whose class has that
    column. *)
Theorem build_dataset_counts kg targets (X Y : sp.csr_matrix)
    (X_node_idx : list nat) :
  build_dataset kg targets = Ok (X, Y, X_node_idx) →
  (Z.of_nat (length targets) < 2 ^ 31)%Z →
  ∀ i j,
    sp.get Y i j
    = Z.of_nat (length (filter
        (λ t, make_nodes_map kg !! t.1.1 = Some i
              ∧ make_classes_map targets !! t.2 = Some j) targets)).
Proof.
  intros Hret Hlen i j.
  destruct (build_dataset_inv _ _ _ _ _ Hret) as (_ & Hin & _ & _ & -> & _).
  unfold sp.get. cbn [sp.data].
  rewrite foldl_add_entry_count
    by (rewrite lookup_empty; cbn; rewrite ?length_fmap; lia).
  rewrite lookup_empty. cbn [default]. rewrite Z.add_0_l. do 2 f_equal.
  clear Hlen Hret.
  assert (Hlookup : ∀ t, t ∈ targets →
            (coordinates kg targets t = (i, j)
             ↔ make_nodes_map kg !! t.1.1 = Some i
               ∧ make_classes_map targets !! t.2 = Some j)).
  { intros t Ht. rewrite Forall_forall in Hin.
    destruct (proj2 (dict_of_enumerate_is_Some (atoms kg) t.1.1)
                (Hin t Ht)) as [i' Hi'].
    destruct (classes_map_lookup targets t Ht) as (j' & Hj' & _).
    unfold coordinates, make_nodes_map at 1 2. rewrite Hi', Hj'. cbn.
    split; [by intros [= -> ->]|by intros [[= ->] [= ->]]]. }
  revert Hlookup. generalize (coordinates kg targets) as f.
  generalize (make_classes_map targets) as cm. intros cm f.
  induction targets as [|t targets IH]; intros Hlookup; [done|].
  cbn [fmap list_fmap]. rewrite !filter_cons.
  assert (IH' : length (filter (λ p, p = (i, j)) (f <$> targets))
                = length (filter (λ t, make_nodes_map kg !! t.1.1 = Some i
                                       ∧ cm !! t.2 = Some j) targets)).
  { apply IH; [by eapply Forall_inv_tail|].
    intros t' Ht'. apply Hlookup. by apply list_elem_of_further. }
  pose proof (Hlookup t (list_elem_of_here _ _)) as Ht.
  destruct (decide (f t = (i, j))) as [Hf|Hf].
  - rewrite decide_True by by apply Ht. cbn. by rewrite IH'.
  - rewrite decide_False by (by rewrite <- Ht). done.
Qed.

(** X13. [classes_map] numbers the classes of the target statements, each
    once, by the numbers below [C], in whatever order the set of classes is
    enumerated: for every enumeration of these classes without repetition,
    the keys of the dictionary built from it are the classes that occur,
    different classes have different numbers, every number below [C] is the
    number of a class, [C] is at most the number of statements, and [C] is
    the same for every such enumeration. [make_classes_map] is the
    dictionary of one of them. *)
Theorem classes_map_numbering targets :
  (∃ order, NoDup order ∧
            (∀ y, y ∈ order ↔ ∃ t, t ∈ targets ∧ t.2 = y) ∧
            make_classes_map targets = dict_of (enumerate 0 order)) ∧
  ∀ order : list cls,
    NoDup order →
    (∀ y, y ∈ order ↔ ∃ t, t ∈ targets ∧ t.2 = y) →
    let classes_map := dict_of (enumerate 0 order) in
    (∀ y, is_Some (classes_map !! y) ↔ ∃ t, t ∈ targets ∧ t.2 = y) ∧
    (∀ y j, classes_map !! y = Some j ↔ order !! j = Some y) ∧
    (∀ y y' j, classes_map !! y = Some j →
               classes_map !! y' = Some j → y = y') ∧
    (∀ j, j < size classes_map ↔ ∃ y, classes_map !! y = Some j) ∧
    size classes_map ≤ length targets ∧
    size classes_map = size (make_classes_map targets).
Proof.
  assert (Helem : ∀ y, y ∈ elements (class_set targets)
                       ↔ ∃ t, t ∈ targets ∧ t.2 = y).
  { intros y. rewrite elem_of_elements. unfold class_set.
    rewrite elem_of_list_to_set, list_elem_of_fmap.
    split; intros (t & Ht1 & Ht2); exists t; done. }
  pose proof (NoDup_elements (class_set targets)) as Hnd.
  split; [by exists (elements (class_set targets))|].
  intros order Hnd' Helem' classes_map.
  destruct (dict_of_enumerate _ Hnd') as [Hlookup Hsize].
  fold classes_map in Hlookup, Hsize.
  assert (Hperm : order ≡ₚ elements (class_set targets)).
  { apply NoDup_Permutation; [done..|].
    intros y. by rewrite Helem, Helem'. }
  split; [|split; [|split; [|split; [|split]]]].
  - intros y. rewrite <- Helem'. split.
    + intros [j Hj]. apply Hlookup in Hj. by eapply list_elem_of_lookup_2.
    + intros [j Hj]%list_elem_of_lookup_1. exists j. by apply Hlookup.
  - intros y j. apply Hlookup.
  - intros y y' j Hy Hy'. apply Hlookup in Hy, Hy'. congruence.
  - intros j. rewrite Hsize. split.
    + intros [y Hy]%lookup_lt_is_Some_2. exists y. by apply Hlookup.
    + intros [y Hy]. apply Hlookup in Hy. by eapply lookup_lt_Some.
  - rewrite Hsize. rewrite <- (length_fmap (λ t : triple node rel cls, t.2)).
    apply submseteq_length, NoDup_submseteq; [done|].
    intros y Hy. apply Helem' in Hy as (t & Ht & <-).
    apply list_elem_of_fmap. by exists t.
  - rewrite Hsize. unfold make_classes_map.
    destruct (dict_of_enumerate _ Hnd) as [_ ->].
    by apply Permutation_length.
Qed.

(** X14. [nodes_map] has the atoms of the graph as its keys and maps each
    to the last position at which the enumeration gives it; it has at most
    as many keys as atoms are enumerated, and exactly as many when none is
    repeated. *)
Theorem nodes_map_positions kg :
  (∀ x, is_Some (make_nodes_map kg !! x) ↔ x ∈ atoms kg) ∧
  (∀ x i, make_nodes_map kg !! x = Some i →
          atoms kg !! i = Some x ∧ ∀ j, i < j → atoms kg !! j ≠ Some x) ∧
  size (make_nodes_map kg) ≤ length (atoms kg) ∧
  (NoDup (atoms kg) → size (make_nodes_map kg) = length (atoms kg)).
Proof.
  split; [|split; [|split]].
  - intros x. apply dict_of_enumerate_is_Some.
  - intros x i. apply dict_of_enumerate_last.
  - apply dict_of_enumerate_size.
  - intros Hnd. by apply dict_of_enumerate.
Qed.

(** X15. Whenever [build_dataset] returns, [X] has shape [N × N] and [Y]
    shape [N × C] with [N] the size of [nodes_map] and [C] the size of
    [classes_map], [1 ≤ N], [1 ≤ C ≤ len(targets)]; every entry stored in
    [Y] lies inside that shape, and so does every returned node index. *)
Theorem build_dataset_shapes kg targets (X Y : sp.csr_matrix)
    (X_node_idx : list nat) :
  build_dataset kg targets = Ok (X, Y, X_node_idx) →
  let N := size (make_nodes_map kg) in
  let C := size (make_classes_map targets) in
  sp.shape X = (N, N) ∧ sp.shape Y = (N, C) ∧
  1 ≤ N ∧ 1 ≤ C ∧ C ≤ length targets ∧
  (∀ i j, is_Some (sp.data Y !! (i, j)) → i < N ∧ j < C) ∧
  Forall (λ i, i < N) X_node_idx.
Proof.
  intros Hret N C.
  destruct (build_dataset_inv _ _ _ _ _ Hret)
    as (Hne & Hin & Hcoords & -> & -> & ->).
  fold N C in Hcoords.
  assert (Hfirst : ∃ p, p ∈ coordinates kg targets <$> targets).
  { destruct targets as [|t targets]; [done|].
    eexists. apply list_elem_of_here. }
  destruct Hfirst as [p Hp]. rewrite Forall_forall in Hcoords.
  destruct (Hcoords p Hp) as [HpN HpC].
  split; [done|]. split; [done|]. split; [lia|]. split; [lia|].
  split; [|split].
  - pose proof (NoDup_elements (class_set targets)) as Hnd.
    destruct (dict_of_enumerate _ Hnd) as [_ Hsize].
    unfold C, make_classes_map. rewrite Hsize.
    rewrite <- (length_fmap (λ t : triple node rel cls, t.2)).
    apply submseteq_length, NoDup_submseteq; [done|].
    intros y Hy. apply elem_of_elements in Hy. unfold class_set in Hy.
    by apply elem_of_list_to_set in Hy.
  - intros i j Hij. cbn [sp.data] in Hij.
    apply foldl_add_entry_dom in Hij as [Hempty|Hq].
    + rewrite lookup_empty in Hempty. by destruct Hempty.
    + apply (Hcoords (i, j) Hq).
  - apply Forall_fmap, Forall_forall. intros q Hq. cbn.
    by apply (Hcoords q Hq).
Qed.

End dataset_more.

(** ** The model builder: outcome, widths, dropout, wiring *)

Section model_more.
Import keras.

Lemma intermediate_layers_stack (pre mid post : list layer_config)
    (support : nat) (A_in : list tensor) (H : tensor) :
  intermediate_layers (pre ++ mid ++ post) support A_in
    (enumerate (length pre) mid) H
  = Ok (stack support A_in mid H).
Proof.
  revert pre H. induction mid as [|l mid IH]; intros pre H; [done|].
  rewrite enumerate_cons. cbn [intermediate_layers stack].
  rewrite <- app_comm_cons.
  rewrite list_lookup_middle by done. cbn [of_option]. rewrite bind_Ok.
  specialize (IH (pre ++ [l])
    (Dropout (dropout l)
       (GraphConvolution (hidden_nodes l) support (regularized_kwargs l)
          ([H] ++ A_in)))).
  rewrite length_app in IH. cbn [length] in IH. rewrite Nat.add_1_r in IH.
  rewrite <- (assoc_L (++)) in IH. exact IH.
Qed.

Lemma stack_graph_convolutions (support : nat) (A_in : list tensor)
    (tables : list layer_config) (H : tensor) :
  graph_convolutions (stack support A_in tables H)
  = graph_convolutions H
    ++ ((λ l, (hidden_nodes l, regularized_kwargs l)) <$> tables).
Proof.
  revert H. induction tables as [|l tables IH]; intros H.
  - by rewrite app_nil_r.
  - cbn [stack]. rewrite IH. cbn. by rewrite <- (assoc_L (++)).
Qed.

Lemma stack_dropouts (support : nat) (A_in : list tensor)
    (tables : list layer_config) (H : tensor) :
  dropouts (stack support A_in tables H)
  = dropouts H ++ (dropout <$> tables).
Proof.
  revert H. induction tables as [|l tables IH]; intros H.
  - by rewrite app_nil_r.
  - cbn [stack]. rewrite IH. cbn. by rewrite <- (assoc_L (++)).
Qed.

Lemma stack_layer_path (support : nat) (A_in : list tensor)
    (tables : list layer_config) (H : tensor) :
  layer_path (stack support A_in tables H)
  = layer_path H
    ++ (tables ≫= λ layer, [Convolution (hidden_nodes layer);
                            DropoutOf (dropout layer)]).
Proof.
  revert H. induction tables as [|l tables IH]; intros H.
  - by rewrite app_nil_r.
  - cbn [stack]. rewrite IH. cbn. by rewrite <- !(assoc_L (++)).
Qed.

Lemma stack_wiring (support : nat) (A_in : list tensor)
    (tables : list layer_config) (H : tensor) :
  wiring (stack support A_in tables H)
  = wiring H ++ replicate (length tables) (support, A_in).
Proof.
  revert H. induction tables as [|l tables IH]; intros H.
  - by rewrite app_nil_r.
  - cbn [stack]. rewrite IH. cbn. by rewrite <- (assoc_L (++)).
Qed.

Lemma stack_features (support : nat) (A_in : list tensor)
    (tables : list layer_config) (H : tensor) :
  features (stack support A_in tables H) = features H.
Proof.
  revert H. induction tables as [|l tables IH]; intros H; [done|].
  cbn [stack]. by rewrite IH.
Qed.

(** The model built from at least two tables. *)
Lemma build_model_closed (X Y : sp.csr_matrix) (A : list sp.csr_matrix)
    (config : config) (first last_layer : layer_config)
    (mid : list layer_config) :
  layers (config_model config) = first :: mid ++ [last_layer] →
  build_model X Y A config
  = let A_in := (λ k, InputAdj k true) <$> seq 0 (length A) in
    let X_in := Input (sp.shape X).2 true in
    Ok (mk_Model ([X_in] ++ A_in)
          (GraphConvolution (sp.shape Y).2 (length A)
             (plain_kwargs last_layer)
             ([stack (length A) A_in (first :: mid) X_in] ++ A_in))
          (loss (config_model config))
          (Adam (learning_rate (config_model config)))
          [categorical_accuracy]).
Proof.
  intros Hlayers. unfold build_model. rewrite Hlayers.
  rewrite bool_decide_eq_true_2
    by (cbn [length]; rewrite length_app; cbn; lia).
  cbn [negb lookup list_lookup of_option]. rewrite bind_Ok.
  rewrite slice_1_m1_middle.
  pose proof (intermediate_layers_stack [first] mid [last_layer] (length A)
                ((λ k, InputAdj k true) <$> seq 0 (length A))
                (Dropout (dropout first)
                   (GraphConvolution (hidden_nodes first) (length A)
                      (regularized_kwargs first)
                      ([Input (sp.shape X).2 true]
                       ++ ((λ k, InputAdj k true) <$> seq 0 (length A))))))
    as Hrun.
  cbn [length] in Hrun.
  change ([first] ++ mid ++ [last_layer])
    with (first :: mid ++ [last_layer]) in Hrun.
  unfold regularized_kwargs in Hrun at 1. rewrite Hrun, bind_Ok.
  rewrite (app_comm_cons mid [last_layer] first), last_snoc.
  cbn [of_option]. rewrite bind_Ok. reflexivity.
Qed.

Lemma build_model_too_few (X Y : sp.csr_matrix) (A : list sp.csr_matrix)
    (config : config) :
  length (layers (config_model config)) < 2 →
  build_model X Y A config = Raise AssertionError.
Proof.
  intros Hlen. unfold build_model.
  rewrite bool_decide_eq_false_2 by lia. done.
Qed.

Lemma take_all_but_last {A} (x y : A) (mid : list A) :
  take (length (x :: mid ++ [y]) - 1) (x :: mid ++ [y]) = x :: mid.
Proof.
  cbn [length]. rewrite length_app. cbn [length].
  replace (S (length mid + 1) - 1) with (S (length mid)) by lia.
  cbn. by rewrite take_app_length.
Qed.

(** X17. The graph convolutions of the built model have the widths of the
    configuration, except the last: every layer but the output layer has the
    [hidden_nodes] of its table, and the output layer has the number of
    columns of [Y], whatever [hidden_nodes] its table gives. *)
Theorem build_model_widths (X Y : sp.csr_matrix) (A : list sp.csr_matrix)
    (config : config) :
  2 ≤ length (layers (config_model config)) →
  ∃ m, build_model X Y A config = Ok m ∧
    fst <$> graph_convolutions (output m)
    = (hidden_nodes <$> take (length (layers (config_model config)) - 1)
                             (layers (config_model config)))
      ++ [(sp.shape Y).2].
Proof.
  intros Hlen. destruct (at_least_two _ Hlen) as (first & mid & lst & Hl).
  rewrite (build_model_closed X Y A config first lst mid Hl), Hl. cbn zeta.
  eexists. split; [done|]. rewrite take_all_but_last.
  cbn [output graph_convolutions app]. rewrite stack_graph_convolutions.
  cbn. rewrite !fmap_app. cbn. rewrite <- list_fmap_compose. done.
Qed.

(** X18. Every graph convolution of the built model, the output layer
    included, is given the [num_bases] and the [activation] of its own
    table; [featureless] is given to every layer but the output layer, which
    is built without it. *)
Theorem build_model_keywords (X Y : sp.csr_matrix) (A : list sp.csr_matrix)
    (config : config) :
  2 ≤ length (layers (config_model config)) →
  ∃ m, build_model X Y A config = Ok m ∧
    ∀ i layer, layers (config_model config) !! i = Some layer →
      ∃ d kw, graph_convolutions (output m) !! i = Some (d, kw) ∧
        kw_num_bases kw = Some (num_bases layer) ∧
        kw_activation kw = Some (activation layer) ∧
        kw_featureless kw
        = if decide (S i < length (layers (config_model config)))
          then Some (featureless layer) else None.
Proof.
  intros Hlen. destruct (at_least_two _ Hlen) as (first & mid & lst & Hl).
  rewrite (build_model_closed X Y A config first lst mid Hl), Hl. cbn zeta.
  eexists. split; [done|].
  cbn [output graph_convolutions app]. rewrite stack_graph_convolutions.
  cbn [graph_convolutions app].
  intros i layer Hi.
  assert (Hlen' : length (first :: mid ++ [lst]) = S (S (length mid))).
  { cbn [length]. rewrite length_app. cbn. lia. }
  rewrite Hlen'.
  change (first :: mid ++ [lst]) with ((first :: mid) ++ [lst]) in Hi.
  change (?a ++ ((λ l, (hidden_nodes l, regularized_kwargs l))
                 <$> first :: mid))
    with ((λ l, (hidden_nodes l, regularized_kwargs l)) <$> first :: mid).
  destruct (decide (i < length (first :: mid))) as [Hlt|Hge].
  - rewrite lookup_app_l in Hi by done.
    rewrite lookup_app_l by by rewrite length_fmap.
    rewrite list_lookup_fmap, Hi. cbn [fmap option_fmap option_map].
    eexists _, _. split; [reflexivity|]. cbn in Hlt.
    rewrite decide_True by lia. done.
  - apply lookup_lt_Some in Hi as Hi'. rewrite length_app in Hi'.
    cbn [length] in Hi', Hge.
    assert (i = length (first :: mid)) as -> by (cbn [length]; lia).
    rewrite list_lookup_middle in Hi by done. injection Hi as <-.
    rewrite list_lookup_middle by by rewrite length_fmap.
    eexists _, _. split; [reflexivity|]. cbn [length].
    rewrite decide_False by lia. done.
Qed.

(** X19. On the path from the feature input to the output of the built
    model the layers alternate: every graph convolution but the last is
    followed directly by a dropout layer with the [dropout] rate of the
    table of that convolution, and the next convolution comes after that
    dropout layer; the output convolution ends the path and no dropout layer
    follows it, whatever [dropout] rate its table gives. *)
Theorem build_model_dropouts (X Y : sp.csr_matrix) (A : list sp.csr_matrix)
    (config : config) :
  2 ≤ length (layers (config_model config)) →
  ∃ m, build_model X Y A config = Ok m ∧
    dropouts (output m)
    = dropout <$> take (length (layers (config_model config)) - 1)
                       (layers (config_model config)) ∧
    layer_path (output m)
    = (take (length (layers (config_model config)) - 1)
            (layers (config_model config))
       ≫= λ layer, [Convolution (hidden_nodes layer);
                    DropoutOf (dropout layer)])
      ++ [Convolution (sp.shape Y).2].
Proof.
  intros Hlen. destruct (at_least_two _ Hlen) as (first & mid & lst & Hl).
  rewrite (build_model_closed X Y A config first lst mid Hl), Hl. cbn zeta.
  eexists. split; [done|]. rewrite take_all_but_last. split.
  - cbn [output dropouts app]. by rewrite stack_dropouts.
  - cbn [output layer_path app]. by rewrite stack_layer_path.
Qed.

(** X20. The built model has one feature input, of the width of [X], and
    one adjacency input per matrix of [A]; the feature input is where the
    stack of layers starts, and every graph convolution is given the support
    count [len(A)] and the same adjacency inputs, those of the model. *)
Theorem build_model_wiring (X Y : sp.csr_matrix) (A : list sp.csr_matrix)
    (config : config) :
  2 ≤ length (layers (config_model config)) →
  ∃ m, build_model X Y A config = Ok m ∧
    input m = Input (sp.shape X).2 true
              :: ((λ k, InputAdj k true) <$> seq 0 (length A)) ∧
    features (output m) = Input (sp.shape X).2 true ∧
    wiring (output m)
    = replicate (length (layers (config_model config)))
        (length A, (λ k, InputAdj k true) <$> seq 0 (length A)).
Proof.
  intros Hlen. destruct (at_least_two _ Hlen) as (first & mid & lst & Hl).
  rewrite (build_model_closed X Y A config first lst mid Hl), Hl. cbn zeta.
  eexists. split; [done|]. split; [done|]. split.
  - cbn [output features app]. by rewrite stack_features.
  - cbn [output wiring app]. rewrite stack_wiring. cbn [wiring app].
    cbn [length]. rewrite length_app. cbn [length].
    rewrite Nat.add_1_r. rewrite <- replicate_S_end. done.
Qed.

End model_more.

(** ** The task generator *)

Section task_more.
Context {node rel cls : Type} `{Countable node} `{Countable cls}.

(** X21. [generate_task] builds the dataset first and the model second: a
    failure of [build_dataset] is its failure whatever the configuration,
    and when the dataset is built, fewer than two layers make it fail with
    an [AssertionError]. Whatever it returns is the dataset that
    [build_dataset] returns together with the model that [build_model]
    builds from it: at least two layers are configured, the feature input
    of the model has the width [N] of [nodes_map] and its output layer has
    the width [C] of [classes_map]. *)
Theorem generate_task_outcome (kg : KnowledgeGraph node)
    (A : list sp.csr_matrix) (targets : list (triple node rel cls))
    (config : config) :
  (∀ e, build_dataset kg targets = Raise e →
        generate_task kg A targets config = Raise e) ∧
  (∀ X Y X_node_idx,
     build_dataset kg targets = Ok (X, Y, X_node_idx) →
     length (layers (config_model config)) < 2 →
     generate_task kg A targets config = Raise AssertionError) ∧
  (∀ X Y X_node_idx model,
     generate_task kg A targets config = Ok (X, Y, X_node_idx, model) →
     build_dataset kg targets = Ok (X, Y, X_node_idx) ∧
     build_model X Y A config = Ok model ∧
     2 ≤ length (layers (config_model config)) ∧
     features (keras.output model)
     = keras.Input (size (make_nodes_map kg)) true ∧
     ∃ kw, last (keras.graph_convolutions (keras.output model))
           = Some (size (make_classes_map targets), kw)).
Proof.
  split; [|split].
  - intros e He. unfold generate_task. by rewrite He.
  - intros X Y X_node_idx Hret Hlen.
    unfold generate_task. rewrite Hret, bind_Ok.
    by rewrite build_model_too_few.
  - intros X Y X_node_idx model Hgen. unfold generate_task in Hgen.
    destruct (build_dataset kg targets) as [[[X' Y'] idx']|e] eqn:Hret;
      [|done].
    rewrite bind_Ok in Hgen.
    destruct (build_model X' Y' A config) as [model'|e] eqn:Hmodel; [|done].
    rewrite bind_Ok in Hgen. injection Hgen as -> -> -> ->.
    split; [done|]. split; [done|].
    destruct (decide (2 ≤ length (layers (config_model config))))
      as [Hlen|Hlen];
      [|rewrite build_model_too_few in Hmodel by lia; done].
    split; [done|].
    destruct (at_least_two _ Hlen) as (first & mid & lst & Hl).
    rewrite (build_model_closed X Y A config first lst mid Hl) in Hmodel.
    cbn zeta in Hmodel. injection Hmodel as <-.
    destruct (build_dataset_inv _ _ _ _ _ Hret)
      as (_ & _ & _ & HX & HY & _).
    split.
    + cbn [keras.output features app]. rewrite stack_features.
      by rewrite HX.
    + eexists. cbn [keras.output keras.graph_convolutions app].
      rewrite last_snoc. by rewrite HY.
Qed.

End task_more.

(** ** The training loop: failures and counts *)

Section run_more.
Context {F node rel cls : Type} `{Float64 F}
        `{Countable node} `{Countable cls}
        `{!Collaborators F node rel cls}.

Implicit Types (args : Args) (config : config) (s : world F).

Lemma loop_events_Fit (model : keras.Model) (X : sp.csr_matrix)
    (A : list sp.csr_matrix) (dataset : dataset) (train_mask : list bool)
    (batch_size : nat) (todo : list Z) (w : weights) (k : nat) :
  length (filter (λ e, is_Fit e = true)
            (loop_events model X A dataset train_mask batch_size todo w k))
  = length todo.
Proof.
  revert w k. induction todo as [|epoch todo IH]; intros w k; [done|].
  cbn [loop_events app length].
  rewrite filter_cons_True by done. rewrite filter_cons_False by done.
  rewrite filter_cons_False by done. cbn. by rewrite IH.
Qed.

(** X23. A run that succeeds makes one training step per epoch and reads
    the clock twice per epoch: under the conditions of C9 its events are
    three per epoch and the test line, [nepoch] of them training steps. *)
Theorem run_training_steps args config s A X Y X_node_map model :
  prerequisites args config = Ok (A, X, Y, X_node_map) →
  build_model X Y A config = Ok model →
  evaluable model X A
    (create_splits X Y X_node_map (dataset_ratio config) (seed config))
    (sp.shape X).1 →
  (1 ≤ epoch (config_model config))%Z →
  ∃ s' evs,
    run args config s = (Ok (), s') ∧ out s' = out s ++ evs ∧
    length (filter (λ e, is_Fit e = true) evs)
    = Z.to_nat (epoch (config_model config)) ∧
    length evs = 3 * Z.to_nat (epoch (config_model config)) + 1 ∧
    ticks s' = ticks s + 2 * Z.to_nat (epoch (config_model config)).
Proof.
  intros Hpre Hmodel Hev Hn.
  eexists _, _. split; [by eapply run_ok|]. cbn [out ticks].
  split; [done|].
  assert (Hlen : length (range 1 (epoch (config_model config) + 1))
                 = Z.to_nat (epoch (config_model config))).
  { rewrite range_length. lia. }
  split; [|split; [|done]].
  - rewrite filter_app, length_app, loop_events_Fit, Hlen.
    rewrite filter_cons_False by done. cbn. lia.
  - rewrite length_app, loop_events_length, Hlen. cbn. lia.
Qed.

(** X24. A validation subset that names a row which the predictions do
    not have is not found before the loop: with at least one epoch
    configured and a training split that fits the prediction of the first
    epoch, [run] fails with an [IndexError] in the first evaluation, after
    one reading of the clock, one training step and one forward pass, with
    no line printed. *)
Theorem run_first_epoch_failure args config s A X Y X_node_map model :
  prerequisites args config = Ok (A, X, Y, X_node_map) →
  build_model X Y A config = Ok model →
  (1 ≤ epoch (config_model config))%Z →
  let dataset := create_splits X Y X_node_map (dataset_ratio config)
                   (seed config) in
  let train_mask := sample_mask (X_idx (train dataset)) (sp.shape Y).1 in
  let w := fit model ([X] ++ A) (split_Y (train dataset)) train_mask
             (sp.shape X).1 (initial_weights model) in
  let P := predict model ([X] ++ A) (sp.shape X).1 w in
  np.wf P → 0 < np.ncols P →
  fits P (split_Y (train dataset), X_idx (train dataset)) →
  Exists (λ i, ¬ (- Z.of_nat (np.nrows P) ≤ i < Z.of_nat (np.nrows P))%Z)
    (X_idx (val dataset)) →
  run args config s
  = (Raise IndexError, mk_world (S (ticks s)) (out s ++ [Fit; Predict])).
Proof.
  intros Hpre Hmodel Hn dataset train_mask w P HP Hc Htrain Hval.
  rewrite (run_built _ _ _ _ _ _ _ _ Hpre Hmodel). cbn zeta.
  fold dataset train_mask.
  rewrite range_cons by lia. rewrite epochs_cons. cbn zeta.
  fold w P.
  rewrite (evaluate_preds_second_index_error P _ _ _ _ HP Hc Htrain Hval).
  done.
Qed.

End run_more.

(** ** The logging set-up *)

Lemma string_app_assoc (s1 s2 s3 : string) :
  (s1 +:+ s2) +:+ s3 = s1 +:+ (s2 +:+ s3).
Proof.
  induction s1 as [|c s1 IH]; [done|].
  change (String c ((s1 +:+ s2) +:+ s3) = String c (s1 +:+ (s2 +:+ s3))).
  by rewrite IH.
Qed.

Lemma endswith_true (s suffix : string) :
  endswith s suffix = true → ∃ p, s = p +:+ suffix.
Proof.
  induction s as [|c s IH].
  - change (endswith "" suffix)
      with (if String.eqb "" suffix then true else false).
    destruct (String.eqb "" suffix) eqn:Heq; [|done].
    apply String.eqb_eq in Heq as <-. by exists "".
  - change (endswith (String c s) suffix)
      with (if String.eqb (String c s) suffix then true
            else endswith s suffix).
    destruct (String.eqb (String c s) suffix) eqn:Heq.
    + apply String.eqb_eq in Heq as <-. by exists "".
    + intros [p ->]%IH. by exists (String c p).
Qed.

(** X25. [set_logging] configures nothing when the log directory is not
    writable. Otherwise it logs to the file [<timestamp>.log] (the timestamp
    in decimal) inside the log directory: a ["/"] is put between the two
    exactly when the directory does not end with one, so that an empty
    directory name gives a file under the root; a stream handler is added
    exactly when [verbose] is set. *)
Theorem set_logging_filename (is_writable : string → bool)
    (log_directory : string) (verbose : bool) (timestamp : Z) :
  (is_writable log_directory = false →
   set_logging is_writable log_directory verbose timestamp = None) ∧
  (is_writable log_directory = true →
   ∃ setup dir,
     set_logging is_writable log_directory verbose timestamp = Some setup ∧
     log_filename setup = dir +:+ "/" +:+ pretty timestamp +:+ ".log" ∧
     (log_directory = dir +:+ "/"
      ∨ log_directory = dir ∧ endswith dir "/" = false) ∧
     stream_handler setup = verbose).
Proof.
  unfold set_logging. split; intros ->; [done|]. cbn [negb].
  destruct (endswith log_directory "/") eqn:Hend.
  - apply endswith_true in Hend as [dir ->].
    eexists _, dir. split; [done|]. cbn.
    split; [apply string_app_assoc|]. split; [by left|done].
  - eexists _, log_directory. split; [done|]. cbn.
    split; [done|]. split; [by right|done].
Qed.

(** ** Instances of the further properties *)

Lemma evaluate_preds_app_witness :
  evaluate_preds (Some sample.P) ([sample.L] ++ [sample.L])
                 ([[0%Z]] ++ [[1%Z]])
  = ('(loss1, acc1) ← evaluate_preds (Some sample.P) [sample.L] [[0%Z]];
     '(loss2, acc2) ← evaluate_preds (Some sample.P) [sample.L] [[1%Z]];
     Ok (loss1 ++ loss2, acc1 ++ acc2)).
Proof.
  apply (evaluate_preds_app (Some sample.P) [sample.L] [sample.L]
           [[0%Z]] [[1%Z]]).
  reflexivity.
Defined.

Lemma sample_fits (idx : list Z) :
  in_range 3 idx → fits sample.P (sample.L, idx).
Proof. intros Hidx. split; [repeat constructor|]. split; done. Qed.

Lemma evaluate_preds_index_error_witness :
  evaluate_preds (Some sample.P) ([sample.L] ++ sample.L :: [])
                 ([[0%Z]] ++ [7%Z] :: [])
  = Raise IndexError.
Proof.
  refine (evaluate_preds_index_error sample.P [sample.L] [] [[0%Z]] []
            sample.L [7%Z] _ _ _ _ _).
  - repeat constructor.
  - cbn. lia.
  - reflexivity.
  - apply Forall_cons_2; [|apply Forall_nil_2].
    apply sample_fits. repeat constructor; cbn; lia.
  - apply Exists_cons_hd. cbn. lia.
Defined.

Lemma evaluate_preds_negative_indices_witness :
  evaluate_preds (Some sample.P) [sample.L] [[-1; 0]%Z]
  = evaluate_preds (Some sample.P) [sample.L]
      ((λ idx : list Z, (λ i, (i `mod` Z.of_nat (np.nrows sample.P))%Z) <$> idx)
       <$> [[-1; 0]%Z]).
Proof.
  refine (evaluate_preds_negative_indices sample.P [sample.L] [[-1; 0]%Z]
            _ _).
  - repeat constructor.
  - repeat constructor; cbn; lia.
Defined.

Lemma categorical_crossentropy_nonzero_labels_witness :
  categorical_crossentropy sample.P sample.L
  = categorical_crossentropy sample.P sample2.L2.
Proof.
  refine (categorical_crossentropy_nonzero_labels sample.P sample.L
            sample2.L2 _).
  cbn. repeat constructor; intros; lia.
Defined.

Lemma evaluate_preds_loss_unlabelled_witness :
  ∃ loss acc acc',
    evaluate_preds (Some sample.P) [sample.L] [[0%Z] ++ [2%Z] ++ [1%Z]]
    = Ok ([loss], [acc])
    ∧ evaluate_preds (Some sample.P) [sample.L] [[0%Z] ++ [1%Z]]
      = Ok ([loss], [acc']).
Proof.
  refine (evaluate_preds_loss_unlabelled sample.P sample.L [0%Z] [1%Z] 2%Z
            _ _ _ _).
  - repeat constructor.
  - cbn. lia.
  - apply sample_fits. repeat constructor; cbn; lia.
  - cbn. repeat constructor.
Defined.

Lemma evaluate_preds_accuracy_unlabelled_witness :
  ∃ loss p a,
    np.rows sample.P !! Z.to_nat 2 = Some p ∧ np.argmax_float p = Ok a ∧
    evaluate_preds (Some sample.P) [sample.L] [[2%Z]]
    = Ok ([loss], [fdiv (of_nat (if decide (a = 0) then 1 else 0))
                        (of_nat 1)]).
Proof.
  refine (evaluate_preds_accuracy_unlabelled sample.P sample.L 2%Z _ _ _ _).
  - repeat constructor.
  - cbn. lia.
  - apply sample_fits. repeat constructor; cbn; lia.
  - cbn. repeat constructor.
Defined.

Lemma evaluate_preds_accuracy_order_witness :
  ∃ loss loss' acc,
    evaluate_preds (Some sample.P) [sample.L] [[0; 1]%Z] = Ok ([loss], [acc])
    ∧ evaluate_preds (Some sample.P) [sample.L] [[1; 0]%Z]
      = Ok ([loss'], [acc]).
Proof.
  refine (evaluate_preds_accuracy_order sample.P sample.L [0; 1]%Z [1; 0]%Z
            _ _ _ _).
  - repeat constructor.
  - cbn. lia.
  - apply sample_fits. repeat constructor; cbn; lia.
  - apply perm_swap.
Defined.

Lemma build_dataset_outcome_witness :
  (build_dataset sample.graph sample.targets = Raise ValueError
   ↔ sample.targets = []) ∧
  ((∃ r, build_dataset sample.graph sample.targets = Ok r)
   ↔ sample.targets ≠ []
     ∧ Forall (λ t, t.1.1 ∈ atoms sample.graph) sample.targets).
Proof.
  apply (build_dataset_outcome sample.graph sample.targets).
  apply sample_graph_NoDup.
Defined.

Lemma build_dataset_node_index_witness :
  length sample2.built.2 = length sample.targets ∧
  ∀ k t, sample.targets !! k = Some t →
    ∃ i, sample2.built.2 !! k = Some i ∧
         make_nodes_map sample.graph !! t.1.1 = Some i ∧
         atoms sample.graph !! i = Some t.1.1.
Proof.
  refine (build_dataset_node_index sample.graph sample.targets
            sample2.built.1.1 sample2.built.1.2 sample2.built.2 _).
  vm_compute. reflexivity.
Defined.

Lemma build_dataset_counts_witness :
  sp.get sample2.built.1.2 0 0
  = Z.of_nat (length (filter
      (λ t, make_nodes_map sample.graph !! t.1.1 = Some 0
            ∧ make_classes_map sample.targets !! t.2 = Some 0)
      sample.targets)).
Proof.
  refine (build_dataset_counts sample.graph sample.targets
            sample2.built.1.1 sample2.built.1.2 sample2.built.2 _ _ 0 0).
  - vm_compute. reflexivity.
  - cbn. lia.
Defined.

Lemma build_dataset_shapes_witness :
  let N := size (make_nodes_map sample.graph) in
  let C := size (make_classes_map sample.targets) in
  sp.shape sample2.built.1.1 = (N, N) ∧ sp.shape sample2.built.1.2 = (N, C) ∧
  1 ≤ N ∧ 1 ≤ C ∧ C ≤ length sample.targets ∧
  (∀ i j, is_Some (sp.data sample2.built.1.2 !! (i, j)) → i < N ∧ j < C) ∧
  Forall (λ i, i < N) sample2.built.2.
Proof.
  refine (build_dataset_shapes sample.graph sample.targets
            sample2.built.1.1 sample2.built.1.2 sample2.built.2 _).
  vm_compute. reflexivity.
Defined.

Lemma build_model_widths_witness :
  ∃ m, build_model sample.X sample.Y sample.A sample2.three_layers = Ok m ∧
    fst <$> keras.graph_convolutions (keras.output m)
    = (hidden_nodes <$>
         take (length (layers (config_model sample2.three_layers)) - 1)
              (layers (config_model sample2.three_layers)))
      ++ [(sp.shape sample.Y).2].
Proof.
  refine (build_model_widths sample.X sample.Y sample.A
            sample2.three_layers _).
  cbn. lia.
Defined.

Lemma build_model_keywords_witness :
  ∃ m, build_model sample.X sample.Y sample.A sample2.three_layers = Ok m ∧
    ∀ i layer,
      layers (config_model sample2.three_layers) !! i = Some layer →
      ∃ d kw, keras.graph_convolutions (keras.output m) !! i = Some (d, kw) ∧
        keras.kw_num_bases kw = Some (num_bases layer) ∧
        keras.kw_activation kw = Some (activation layer) ∧
        keras.kw_featureless kw
        = if decide (S i < length (layers (config_model sample2.three_layers)))
          then Some (featureless layer) else None.
Proof.
  refine (build_model_keywords sample.X sample.Y sample.A
            sample2.three_layers _).
  cbn. lia.
Defined.

Lemma build_model_dropouts_witness :
  ∃ m, build_model sample.X sample.Y sample.A sample2.three_layers = Ok m ∧
    dropouts (keras.output m) = [(1 # 2)%Q; (1 # 4)%Q] ∧
    layer_path (keras.output m)
    = [Convolution 16; DropoutOf (1 # 2); Convolution 8; DropoutOf (1 # 4);
       Convolution 2].
Proof.
  refine (build_model_dropouts sample.X sample.Y sample.A
            sample2.three_layers _).
  cbn. lia.
Defined.

Lemma build_model_wiring_witness :
  ∃ m, build_model sample.X sample.Y sample.A sample2.three_layers = Ok m ∧
    keras.input m
    = keras.Input (sp.shape sample.X).2 true
      :: ((λ k, keras.InputAdj k true) <$> seq 0 (length sample.A)) ∧
    features (keras.output m) = keras.Input (sp.shape sample.X).2 true ∧
    wiring (keras.output m)
    = replicate (length (layers (config_model sample2.three_layers)))
        (length sample.A,
         (λ k, keras.InputAdj k true) <$> seq 0 (length sample.A)).
Proof.
  refine (build_model_wiring sample.X sample.Y sample.A
            sample2.three_layers _).
  cbn. lia.
Defined.

Lemma run_training_steps_witness :
  ∃ s' evs,
    run (F := sym.t) (node := string) (rel := string) (cls := string)
      (mk_Args (Some "prepared.tar"%string)) sample.two_layers (mk_world 0 [])
    = (Ok (), s')
    ∧ out s' = [] ++ evs
    ∧ length (filter (λ e, is_Fit e = true) evs) = Z.to_nat 1
    ∧ length evs = 3 * Z.to_nat 1 + 1
    ∧ ticks s' = 0 + 2 * Z.to_nat 1.
Proof.
  refine (run_training_steps
            (F := sym.t) (node := string) (rel := string) (cls := string)
            (mk_Args (Some "prepared.tar"%string)) sample.two_layers
            (mk_world 0 []) sample.A sample.X sample.Y [0; 1] sample.model
            _ _ _ _).
  - reflexivity.
  - reflexivity.
  - apply sample_evaluable.
  - cbn. lia.
Defined.

Lemma run_first_epoch_failure_witness :
  run (F := sym.t) (node := string) (rel := string) (cls := string)
    (Collaborators0 := sample2.bad_collaborators)
    (mk_Args (Some "prepared.tar"%string)) sample.two_layers (mk_world 0 [])
  = (Raise IndexError, mk_world 1 ([] ++ [Fit; Predict])).
Proof.
  refine (run_first_epoch_failure
            (F := sym.t) (node := string) (rel := string) (cls := string)
            (Collaborators0 := sample2.bad_collaborators)
            (mk_Args (Some "prepared.tar"%string)) sample.two_layers
            (mk_world 0 []) sample.A sample.X sample.Y [0; 1] sample.model
            _ _ _ _ _ _ _).
  - reflexivity.
  - reflexivity.
  - cbn. lia.
  - cbn. repeat constructor.
  - cbn. lia.
  - cbn. repeat split; repeat constructor; cbn; lia.
  - cbn. apply Exists_cons_hd. cbn. lia.
Defined.

Lemma classes_map_numbering_witness :
  let classes_map := dict_of (enumerate 0 sample2.class_order) in
  (∀ y, is_Some (classes_map !! y)
        ↔ ∃ t, t ∈ sample.targets ∧ t.2 = y) ∧
  (∀ y j, classes_map !! y = Some j ↔ sample2.class_order !! j = Some y) ∧
  (∀ y y' j, classes_map !! y = Some j →
             classes_map !! y' = Some j → y = y') ∧
  (∀ j, j < size classes_map ↔ ∃ y, classes_map !! y = Some j) ∧
  size classes_map ≤ length sample.targets ∧
  size classes_map = size (make_classes_map sample.targets).
Proof.
  refine (proj2 (classes_map_numbering (rel := string) sample.targets)
            sample2.class_order _ _).
  - unfold sample2.class_order. apply NoDup_cons. split.
    + rewrite list_elem_of_singleton. done.
    + apply NoDup_singleton.
  - intros y. unfold sample2.class_order, sample.targets. split.
    + intros Hy. apply elem_of_cons in Hy as [->|Hy].
      * exists ("c", "type", "y")%string. split; [|done].
        apply list_elem_of_further, list_elem_of_here.
      * apply list_elem_of_singleton in Hy as ->.
        exists ("a", "type", "x")%string. split; [|done].
        apply list_elem_of_here.
    + intros (t & Ht & <-). apply elem_of_cons in Ht as [->|Ht].
      * apply list_elem_of_further, list_elem_of_here.
      * apply list_elem_of_singleton in Ht as ->. apply list_elem_of_here.
Defined.

Lemma generate_task_outcome_witness :
  build_dataset sample.graph sample.targets
  = Ok (sample2.built.1.1, sample2.built.1.2, sample2.built.2) ∧
  build_model sample2.built.1.1 sample2.built.1.2 sample.A
    sample2.three_layers = Ok sample2.task_model ∧
  2 ≤ length (layers (config_model sample2.three_layers)) ∧
  features (keras.output sample2.task_model)
  = keras.Input (size (make_nodes_map sample.graph)) true ∧
  ∃ kw, last (keras.graph_convolutions (keras.output sample2.task_model))
        = Some (size (make_classes_map sample.targets), kw).
Proof.
  refine (proj2 (proj2 (generate_task_outcome sample.graph sample.A
                          sample.targets sample2.three_layers))
            sample2.built.1.1 sample2.built.1.2 sample2.built.2
            sample2.task_model _).
  vm_compute. reflexivity.
Defined.
